(** * sapphire-project/framework: message parsing, preconditions, listeners

    A shallow embedding of three source files of the framework,

    - [src/events/command-handler/CoreMessageParser.ts],
    - [src/lib/utils/preconditions/PreconditionContainerSingle.ts],
    - [src/lib/structures/Listener.ts],

    followed by the properties of the specification that concern them.

    The JavaScript built-ins the code relies on ([String.prototype.startsWith],
    indexing, [substr], truthiness, promises and [async] bodies) are given
    first, in [Module JS].  Definitions that embed a source function keep its
    name. *)

From Stdlib Require Import String Ascii List Bool Arith Lia.
From stdpp Require Import base option list strings gmap.
Import ListNotations.

Local Open Scope string_scope.
Local Open Scope list_scope.
Local Open Scope nat_scope.

(* ===================================================================== *)
(** * JavaScript primitives                                               *)
(* ===================================================================== *)

Module JS.

(** A JavaScript string is a sequence of UTF-16 code units; [length],
    indexing, [substr] and [startsWith] all count code units.  The embedding
    uses [string], one [ascii] standing for one code unit: none of the
    functions below looks inside a unit other than to compare it. *)

(** [s.startsWith(p)] *)
Definition startsWith (s p : string) : bool := String.prefix p s.

(** [s[i]]: [None] stands for [undefined] (index out of range). *)
Definition at_index (s : string) (i : nat) : option ascii := String.get i s.

(** [s.substr(start, len)] for non-negative arguments: at most [len] units
    from [start], fewer when the string ends first. *)
Definition substr (s : string) (start len : nat) : string :=
  String.substring start len s.

(** Truthiness of a [string | null] value: [null] and [''] are falsy. *)
Definition truthy (v : option string) : bool :=
  match v with
  | Some s => negb (String.eqb s "")
  | None => false
  end.

(** [s[i] === c] *)
Definition index_is (s : string) (i : nat) (c : ascii) : bool :=
  match at_index s i with
  | Some d => Ascii.eqb d c
  | None => false
  end.

(** A thrown value.  The code of this repository only ever constructs
    [new Error(message)]. *)
Inductive JSError : Type :=
| Error (message : string).

(** The state a promise settles in (also used for a synchronous call, which
    either returns or throws). *)
Inductive Settled (A : Type) : Type :=
| Fulfilled (a : A)
| Rejected (e : JSError).
Arguments Fulfilled {A} a.
Arguments Rejected {A} e.

(** An [async] function body: the external effects it performed, oldest
    first, and how it settled.  A rejection skips the rest of the body. *)
Definition Async (E A : Type) : Type := (list E * Settled A)%type.

Definition ret {E A : Type} (a : A) : Async E A := ([], Fulfilled a).

Definition bind {E A B : Type} (c : Async E A) (k : A -> Async E B) : Async E B :=
  match c with
  | (t, Fulfilled a) => let (t', r) := k a in (t ++ t', r)
  | (t, Rejected e) => (t, Rejected e)
  end.

(** An effect with no result of interest, such as [emit], which is taken to
    return normally. *)
Definition perform {E : Type} (e : E) : Async E unit := ([e], Fulfilled tt).

(** [await call(...)]: the call is recorded and settles as the callee says. *)
Definition await {E A : Type} (e : E) (r : Settled A) : Async E A := ([e], r).

(** [try { body } catch (error) { handler(error) }] *)
Definition try_catch {E A : Type} (body : Async E A) (handler : JSError -> Async E A)
  : Async E A :=
  match body with
  | (t, Fulfilled a) => (t, Fulfilled a)
  | (t, Rejected e) => let (t', r) := handler e in (t ++ t', r)
  end.

Definition trace {E A : Type} (c : Async E A) : list E := fst c.
Definition outcome {E A : Type} (c : Async E A) : Settled A := snd c.

(** How a synchronous call completes. *)
Inductive Completion (A : Type) : Type :=
| Returned (a : A)
| Thrown (e : JSError).
Arguments Returned {A} a.
Arguments Thrown {A} e.

(** [Awaitable<A>]: a plain value or a promise. *)
Inductive Awaitable (A : Type) : Type :=
| Value (a : A)
| Promise (p : Settled A).
Arguments Value {A} a.
Arguments Promise {A} p.

(** [await f(...)] seen from inside an [async] body: a synchronous throw of
    [f] and a rejection of the promise it returned both surface as an
    exception at the [await]. *)
Definition awaited {A : Type} (c : Completion (Awaitable A)) : Settled A :=
  match c with
  | Thrown e => Rejected e
  | Returned (Value a) => Fulfilled a
  | Returned (Promise p) => p
  end.

(** The values that travel as event arguments and context entries. *)
Inductive JSValue : Type :=
| VUndefined
| VNull
| VBool (b : bool)
| VNumber (n : nat)
| VString (s : string)
| VError (e : JSError)
| VPiece (name event path : string).

(** The double-quote character, for messages that quote a name. *)
Definition dquote : string := String (Ascii.ascii_of_nat 34) EmptyString.

End JS.

Declare Scope async_scope.
Delimit Scope async_scope with async.
Notation "x <~ c ;; k" := (JS.bind c (fun x => k))
  (at level 100, c at next level, right associativity) : async_scope.

(* ===================================================================== *)
(** * events/command-handler/CoreMessageParser.ts                         *)
(* ===================================================================== *)

Module CoreMessageParser.
Import JS.

(** ** The discord.js objects the handler reads *)

Inductive PermissionString : Type :=
| ADMINISTRATOR
| VIEW_CHANNEL
| SEND_MESSAGES
| MANAGE_MESSAGES.

(** A [Permissions] object, seen through its one method used here,
    [has(permission, flag)]. *)
Record Permissions : Type := {
  has : list PermissionString -> bool -> bool
}.

Record GuildMember : Type := {
  member_id : string
}.

(** [guild.me] is the cached own membership ([null] when not cached);
    [guild.members.fetch(id)] returns a promise of a member, which fulfils
    with the member or rejects. *)
Record Guild : Type := {
  me : option GuildMember;
  members_fetch : string -> Settled GuildMember
}.

(** A text or news channel belongs to a guild.  [permissionsFor(member)!]:
    the source asserts the permission object is there. *)
Record GuildChannel : Type := {
  guild : Guild;
  permissionsFor : GuildMember -> Permissions
}.

(** [message.channel], discriminated by [channel.type] (['dm'], ['text'],
    ['news']); [message.guild] is the channel's guild, which the source
    asserts non-null ([message.guild!]) once the type is not ['dm']. *)
Inductive Channel : Type :=
| DMChannel
| TextChannel (c : GuildChannel)
| NewsChannel (c : GuildChannel).

Record User : Type := {
  bot : bool
}.

Record Message : Type := {
  author : User;
  webhookID : option string;
  content : string;
  channel : Channel
}.

Record RegExp : Type := {
  source : string
}.

(** What [client.fetchPrefix] resolves to: [readonly string[] | string | null]. *)
Inductive SapphirePrefix : Type :=
| PrefixNull
| PrefixString (s : string)
| PrefixArray (l : list string).

Record ClientOptions : Type := {
  regexPrefix : option RegExp
}.

(** The client: [message.client] and [this.context.client] are one object. *)
Record Client : Type := {
  id : option string;
  options : ClientOptions;
  fetchPrefix : Message -> Settled SapphirePrefix
}.

(** The prefix carried by [Events.PrefixedMessage]: the mention token or a
    fetched prefix (strings), or the configured pattern. *)
Inductive Prefix : Type :=
| StringPrefix (s : string)
| PatternPrefix (r : RegExp).

Inductive Event : Type :=
| MentionPrefixOnly (m : Message)
| PrefixedMessage (m : Message) (p : Prefix).

(** The external effects of the handler, as they appear in a trace. *)
Inductive Effect : Type :=
| MembersFetch (id : string)
| FetchPrefix (m : Message)
| Emit (e : Event).

Definition requiredPermissions : list PermissionString :=
  [VIEW_CHANNEL; SEND_MESSAGES].

(** ** [canRunInChannel] *)

Definition canRunInChannel (client : Client) (message : Message)
  : Async Effect bool :=
  (match channel message with
   | DMChannel => ret true
   | TextChannel c | NewsChannel c =>
     me <~ match me (guild c) with
           | Some m => ret (Some m)
           | None =>
             match id client with
             | Some i =>
               if truthy (Some i)
               then (m <~ await (MembersFetch i) (members_fetch (guild c) i) ;;
                     ret (Some m))
               else ret None
             | None => ret None
             end
           end ;;
     match me with
     | None => ret false
     | Some me => ret (has (permissionsFor c me) requiredPermissions false)
     end
   end)%async.

(** ** [getMentionPrefix] *)

Definition getMentionPrefix (client : Client) (content : string) : option string :=
  match id client with
  | None => None
  | Some id =>
    if negb (truthy (Some id)) then None
    else if (String.length content <? 20)%nat || negb (startsWith content "<@") then None
    else
      let nickname := index_is content 2 "!"%char in
      let idOffset := if nickname then 3 else 2 in
      let idLength := String.length id in
      if negb (index_is content (idOffset + idLength) ">"%char) then None
      else
        let mentionID := substr content idOffset idLength in
        if String.eqb mentionID id
        then Some (substr content 0 (idOffset + idLength + 1))
        else None
  end.

(** ** [getPrefix] *)

Definition getPrefix (content : string) (prefixes : SapphirePrefix) : option string :=
  match prefixes with
  | PrefixNull => None
  | PrefixString p => if startsWith content p then Some p else None
  | PrefixArray l => List.find (fun prefix => startsWith content prefix) l
  end.

(** ** [run] *)

(** The last statement of [run]:
    [if (prefix !== null) message.client.emit(Events.PrefixedMessage, message, prefix)]. *)
Definition emitPrefixed (message : Message) (prefix : option Prefix)
  : Async Effect unit :=
  match prefix with
  | Some p => perform (Emit (PrefixedMessage message p))
  | None => ret tt
  end.

Definition run (client : Client) (message : Message) : Async Effect unit :=
  (if bot (author message) || truthy (webhookID message) then ret tt
   else
     canRun <~ canRunInChannel client message ;;
     if negb canRun then ret tt
     else
       let mentionPrefix := getMentionPrefix client (content message) in
       let regexPrefix := regexPrefix (options client) in
       if truthy mentionPrefix then
         match mentionPrefix with
         | Some mentionPrefix =>
           if (String.length (content message) =? String.length mentionPrefix)%nat
           then perform (Emit (MentionPrefixOnly message))
           else emitPrefixed message (Some (StringPrefix mentionPrefix))
         | None => ret tt
         end
       else
         match regexPrefix with
         | Some regexPrefix => emitPrefixed message (Some (PatternPrefix regexPrefix))
         | None =>
           prefixes <~ await (FetchPrefix message) (fetchPrefix client message) ;;
           let parsed := getPrefix (content message) prefixes in
           emitPrefixed message
             (match parsed with
              | Some p => Some (StringPrefix p)
              | None => None
              end)
         end)%async.

(** ** Vocabulary of the specification *)

(** The offset at which the identifier starts: 3 in the nickname form
    [<@!id>], 2 in the plain form [<@id>]. *)
Definition mentionOffset (content : string) : nat :=
  if index_is content 2 "!"%char then 3 else 2.

(** The conditions the specification lists for a mention of the bot [id] at
    the start of [content]. *)
Definition isMention (id content : string) : Prop :=
  20 <= String.length content /\
  startsWith content "<@" = true /\
  at_index content (mentionOffset content + String.length id) = Some ">"%char /\
  substr content (mentionOffset content) (String.length id) = id.

(** The message is not ignored and the permission gate lets it through,
    having performed the effects [t]. *)
Definition passesGates (client : Client) (message : Message) (t : list Effect)
  : Prop :=
  bot (author message) = false /\
  truthy (webhookID message) = false /\
  canRunInChannel client message = (t, Fulfilled true).

(** The second and third tier in the specification's words: the configured
    pattern if there is one; otherwise fetch the candidates and take the
    first the content starts with. *)
Definition laterTiers (client : Client) (message : Message) : Async Effect unit :=
  match regexPrefix (options client) with
  | Some r => perform (Emit (PrefixedMessage message (PatternPrefix r)))
  | None =>
    (prefixes <~ await (FetchPrefix message) (fetchPrefix client message) ;;
     match getPrefix (content message) prefixes with
     | Some p => perform (Emit (PrefixedMessage message (StringPrefix p)))
     | None => ret tt
     end)%async
  end.

Definition is_fetchPrefix (e : Effect) : bool :=
  match e with
  | FetchPrefix _ => true
  | _ => false
  end.

Definition is_emit (e : Effect) : bool :=
  match e with
  | Emit _ => true
  | _ => false
  end.

End CoreMessageParser.

(* ===================================================================== *)
(** * lib/utils/preconditions/PreconditionContainerSingle.ts              *)
(* ===================================================================== *)

Module PreconditionContainerSingle.
Import JS.

Definition Message : Type := CoreMessageParser.Message.

Record Command : Type := {
  command_name : string
}.

(** [Record<PropertyKey, unknown>]: an object used as a map. *)
Abbreviation Context := (gmap string JSValue).

(** [{ ...a, ...b }]: the own properties of [a], then those of [b] written
    over them. *)
Definition spread (a b : Context) : Context := b ∪ a.

(** [Result<unknown, UserError>], what a precondition answers. *)
Inductive Result : Type :=
| ok
| err (identifier : string).

(** A registered precondition piece, seen through its [run] method, which
    may answer at once, hand back a promise, or throw. *)
Record Precondition : Type := {
  precondition_run : Message -> Command -> Context -> Completion (Awaitable Result)
}.

(** [container.stores.get('preconditions')]: the live registry. *)
Record Container : Type := {
  preconditions : gmap string Precondition
}.

Inductive Effect : Type :=
| PreconditionRun (name : string) (message : Message) (command : Command)
    (context : Context).

Record PreconditionContainerSingle : Type := {
  context : Context;
  name : string
}.

Inductive PreconditionSingleResolvable : Type :=
| ResolvableName (data : string)
| ResolvableDetails (details_name : string) (details_context : Context).

Definition new (data : PreconditionSingleResolvable) : PreconditionContainerSingle :=
  match data with
  | ResolvableName data => {| context := ∅; name := data |}
  | ResolvableDetails n c => {| context := c; name := n |}
  end.

(** [run] is not [async]: it returns whatever the precondition returns, or
    throws.  The third parameter defaults to [{}] when omitted. *)
Definition run (container : Container) (this : PreconditionContainerSingle)
    (message : Message) (command : Command) (context_arg : option Context)
  : list Effect * Completion (Awaitable Result) :=
  let context_arg := default ∅ context_arg in
  match preconditions container !! name this with
  | Some precondition =>
    let merged := spread context_arg (context this) in
    ([PreconditionRun (name this) message command merged],
     precondition_run precondition message command merged)
  | None =>
    ([], Thrown (Error ("The precondition " ++ dquote ++ name this ++ dquote
                        ++ " is not available.")))
  end.

End PreconditionContainerSingle.

(* ===================================================================== *)
(** * lib/structures/Listener.ts                                          *)
(* ===================================================================== *)

Module Listener.
Import JS.

(** An [EventEmitter] is known by a reference; [client] is the central one. *)
Definition EventEmitter : Type := string.
Definition client : EventEmitter := "client".

(** [Events.ListenerError] *)
Definition ListenerError : string := "listenerError".

(** What [@sapphire/pieces] hands to a piece's constructor. *)
Record PieceContext : Type := {
  context_name : string;
  context_path : string
}.

(** [options.emitter]: a key of the client or an emitter object. *)
Inductive EmitterOption : Type :=
| EmitterKey (key : string)
| EmitterObject (e : EventEmitter).

Record EventOptions : Type := {
  options_name : option string;
  options_emitter : option EmitterOption;
  options_event : option string;
  options_once : option bool
}.

(** A listener object.  [run] is the abstract method a subclass supplies:
    called with the event's arguments it returns (a value or a promise) or
    throws. *)
Record Listener : Type := {
  name : string;
  path : string;
  emitter : option EventEmitter;
  event : string;
  once : bool;
  run : list JSValue -> Completion (Awaitable JSValue)
}.

(** The constructor.  [client_get] is [Reflect.get(this.container.client, key)]
    restricted to the properties that are emitters. *)
Definition new (client_get : string -> option EventEmitter)
    (run : list JSValue -> Completion (Awaitable JSValue))
    (context : PieceContext) (options : EventOptions) : Listener :=
  let name := default (context_name context) (options_name options) in
  {| name := name;
     path := context_path context;
     emitter :=
       match options_emitter options with
       | None => Some client
       | Some (EmitterKey key) => client_get key
       | Some (EmitterObject e) => Some e
       end;
     event := default name (options_event options);
     once := default false (options_once options);
     run := run |}.

(** The external calls a listener makes. *)
Inductive Effect : Type :=
| CallRun (piece : Listener) (args : list JSValue)
| EmitListenerError (error : JSError) (piece : Listener)
| StoreUnload (piece : Listener)
| EmitterOn (e : EventEmitter) (event : string) (piece : Listener)
| EmitterOnce (e : EventEmitter) (event : string) (piece : Listener)
| EmitterOff (e : EventEmitter) (event : string) (piece : Listener).

(** Which method [#listener] is bound to, [null] being [None]. *)
Inductive Bound : Type := Bound_run | Bound_runOnce.

Definition listener (this : Listener) : option Bound :=
  match emitter this with
  | Some _ =>
    if truthy (Some (event this))
    then Some (if once this then Bound_runOnce else Bound_run)
    else None
  | None => None
  end.

Definition onLoad (this : Listener) : list Effect :=
  match listener this, emitter this with
  | Some _, Some e =>
    [if once this then EmitterOnce e (event this) this
     else EmitterOn e (event this) this]
  | _, _ => []
  end.

Definition onUnload (this : Listener) : list Effect :=
  match listener this, emitter this with
  | Some _, Some e =>
    if negb (once this) then [EmitterOff e (event this) this] else []
  | _, _ => []
  end.

Definition _run (this : Listener) (args : list JSValue) : Async Effect unit :=
  try_catch
    (_ <~ await (CallRun this args) (awaited (run this args)) ;; ret tt)%async
    (fun error => perform (EmitListenerError error this)).

(** [unload] is [this.store.unload], which settles as the store says. *)
Definition _runOnce (unload : Listener -> Settled unit) (this : Listener)
    (args : list JSValue) : Async Effect unit :=
  (_ <~ _run this args ;;
   await (StoreUnload this) (unload this))%async.

(** ** The surroundings: emitters, the store, the microtask queue

    The listener only issues the calls above; what they do is the business
    of Node's [EventEmitter] and of the store of [@sapphire/pieces].  Their
    behaviour is written down here so that a listener can be followed
    through several emissions:
    - [on] and [once] append a subscription, [off] removes the one
      subscribed last for that event and function;
    - [emit] calls the functions subscribed at that moment, in order, a
      subscription made with [once] being removed just before its call;
    - a call of [#listener] runs the wrapper up to its first [await]: [run]
      is called, and when [run] throws synchronously the [catch] block is
      entered at once, so that the report is emitted inside the emission
      that called the listener, before the next subscriber is called; what
      follows (the report of a rejected promise, the unloading) runs later,
      from the microtask queue;
    - [store.unload(piece)], given the piece itself, calls
      [piece.onUnload()] and forgets the piece by name, whether or not the
      store still holds it, and fulfils.

    One thing is cut short.  A subscriber of the client's listener-error
    event whose [run] throws synchronously while a report is being
    delivered would have Node emit a report inside the report, to itself
    among others, and so on for as long as it keeps throwing; its report is
    queued here instead. *)

Record Subscription : Type := {
  sub_emitter : EventEmitter;
  sub_event : string;
  sub_once : bool;
  sub_piece : Listener
}.

Record World : Type := {
  subscriptions : list Subscription;
  pieces : list string;
  microtasks : list Effect;
  history : list Effect
}.

Definition same_piece (a b : Listener) : bool := String.eqb (name a) (name b).

Definition listens (e : EventEmitter) (ev : string) (s : Subscription) : bool :=
  String.eqb (sub_emitter s) e && String.eqb (sub_event s) ev.

Definition subscribed (e : EventEmitter) (ev : string) (l : Listener)
    (s : Subscription) : bool :=
  listens e ev s && same_piece (sub_piece s) l.

(** Remove the last subscription satisfying [p]. *)
Fixpoint remove_last (p : Subscription -> bool) (l : list Subscription)
  : list Subscription :=
  match l with
  | [] => []
  | s :: l' =>
    if existsb p l' then s :: remove_last p l'
    else if p s then l' else s :: l'
  end.

(** [store.unload(piece)] with the piece itself fulfils in every world. *)
Definition store_unload (w : World) (l : Listener) : Settled unit :=
  Fulfilled tt.

(** The function [#listener] that a subscription of [l] calls. *)
Definition handler (w : World) (l : Listener) (args : list JSValue)
  : Async Effect unit :=
  if once l then _runOnce (store_unload w) l args else _run l args.

(** A call of [handler] in which only the call of [run] takes place at once,
    every other effect waiting in the queue. *)
Definition invoke_queued (l : Listener) (args : list JSValue) (w : World) : World :=
  match trace (handler w l args) with
  | [] => w
  | now :: later =>
    {| subscriptions := subscriptions w;
       pieces := pieces w;
       microtasks := microtasks w ++ later;
       history := history w ++ [now] |}
  end.

(** The emitter's side of [emit]: the functions subscribed to [ev] on [e] are
    called in order, by [invoke]; the subscriptions made with [once] are
    gone by the time their function is called. *)
Definition deliver (invoke : Listener -> list JSValue -> World -> World)
    (e : EventEmitter) (ev : string) (args : list JSValue) (w : World) : World :=
  let called := List.filter (listens e ev) (subscriptions w) in
  let kept :=
    List.filter (fun s => negb (listens e ev s && sub_once s)) (subscriptions w) in
  fold_left (fun w s => invoke (sub_piece s) args w) called
    {| subscriptions := kept;
       pieces := pieces w;
       microtasks := microtasks w;
       history := history w |}.

(** [client.emit(Events.ListenerError, error, { piece })] from inside a call
    of [handler]. *)
Definition report (error : JSError) (piece : Listener) (w : World) : World :=
  deliver invoke_queued client ListenerError
    [VError error; VPiece (name piece) (event piece) (path piece)]
    {| subscriptions := subscriptions w;
       pieces := pieces w;
       microtasks := microtasks w;
       history := history w ++ [EmitListenerError error piece] |}.

(** How many effects of [handler] take place before its first [await]: the
    call of [run], and the report when [run] throws synchronously. *)
Definition immediate (l : Listener) (args : list JSValue) : nat :=
  match run l args with
  | Thrown _ => 2
  | Returned _ => 1
  end.

(** An effect of [handler] takes place inside the emission. *)
Definition at_once (c : Effect) (w : World) : World :=
  match c with
  | EmitListenerError error piece => report error piece w
  | _ =>
    {| subscriptions := subscriptions w;
       pieces := pieces w;
       microtasks := microtasks w;
       history := history w ++ [c] |}
  end.

(** Calling [handler]: its [immediate] effects take place now, the others
    wait in the queue. *)
Definition invoke (l : Listener) (args : list JSValue) (w : World) : World :=
  let effects := trace (handler w l args) in
  let w := fold_left (fun w c => at_once c w) (firstn (immediate l args) effects) w in
  {| subscriptions := subscriptions w;
     pieces := pieces w;
     microtasks := microtasks w ++ skipn (immediate l args) effects;
     history := history w |}.

Definition emit (e : EventEmitter) (ev : string) (args : list JSValue)
    (w : World) : World :=
  deliver invoke e ev args w.

Definition record (c : Effect) (w : World) : World :=
  {| subscriptions := subscriptions w;
     pieces := pieces w;
     microtasks := microtasks w;
     history := history w ++ [c] |}.

Definition subscribe (s : Subscription) (w : World) : World :=
  {| subscriptions := subscriptions w ++ [s];
     pieces := pieces w;
     microtasks := microtasks w;
     history := history w |}.

(** The emitter's side of [on], [once] and [off]. *)
Definition emitter_call (c : Effect) (w : World) : World :=
  match c with
  | EmitterOn e ev l =>
    subscribe {| sub_emitter := e; sub_event := ev; sub_once := false; sub_piece := l |}
      (record c w)
  | EmitterOnce e ev l =>
    subscribe {| sub_emitter := e; sub_event := ev; sub_once := true; sub_piece := l |}
      (record c w)
  | EmitterOff e ev l =>
    let w := record c w in
    {| subscriptions := remove_last (subscribed e ev l) (subscriptions w);
       pieces := pieces w;
       microtasks := microtasks w;
       history := history w |}
  | _ => w
  end.

Definition forget (l : Listener) (w : World) : World :=
  {| subscriptions := subscriptions w;
     pieces := List.filter (fun n => negb (String.eqb (name l) n)) (pieces w);
     microtasks := microtasks w;
     history := history w |}.

(** One queued effect takes place. *)
Definition perform_effect (c : Effect) (w : World) : World :=
  match c with
  | CallRun _ _ => record c w
  | EmitListenerError error piece =>
    emit client ListenerError
      [VError error; VPiece (name piece) (event piece) (path piece)] (record c w)
  | StoreUnload piece =>
    forget piece
      (fold_left (fun w c => emitter_call c w) (onUnload piece) (record c w))
  | EmitterOn _ _ _ | EmitterOnce _ _ _ | EmitterOff _ _ _ => emitter_call c w
  end.

(** [store.load(piece)]: [piece.onLoad()], then the store holds the piece. *)
Definition load (l : Listener) (w : World) : World :=
  let w := fold_left (fun w c => emitter_call c w) (onLoad l) w in
  {| subscriptions := subscriptions w;
     pieces := pieces w ++ [name l];
     microtasks := microtasks w;
     history := history w |}.

(** What can happen next: a source emits an event, or the oldest queued
    effect takes place. *)
Inductive Stimulus : Type :=
| Emits (e : EventEmitter) (ev : string) (args : list JSValue)
| Tick.

Definition step (w : World) (s : Stimulus) : World :=
  match s with
  | Emits e ev args => emit e ev args w
  | Tick =>
    match microtasks w with
    | [] => w
    | c :: rest =>
      perform_effect c
        {| subscriptions := subscriptions w;
           pieces := pieces w;
           microtasks := rest;
           history := history w |}
    end
  end.

Definition steps (w : World) (schedule : list Stimulus) : World :=
  fold_left step schedule w.

(** How often [run] of the piece named [n] was called. *)
Definition is_call_of (n : string) (c : Effect) : bool :=
  match c with
  | CallRun l _ => String.eqb (name l) n
  | _ => false
  end.

Definition calls_of (n : string) (h : list Effect) : nat :=
  List.length (List.filter (is_call_of n) h).

Definition is_off_of (n : string) (c : Effect) : bool :=
  match c with
  | EmitterOff _ _ l => String.eqb (name l) n
  | _ => false
  end.

(** No subscription, no piece, nothing queued, nothing done. *)
Definition empty_world : World :=
  {| subscriptions := []; pieces := []; microtasks := []; history := [] |}.

(** ** Following one listener through a run of the world *)

Definition named (n : string) (s : Subscription) : bool :=
  String.eqb (name (sub_piece s)) n.

(** The subscription [onLoad] makes for a listener on emitter [e]. *)
Definition subscription_of (l : Listener) (e : EventEmitter) : Subscription :=
  {| sub_emitter := e; sub_event := event l; sub_once := once l; sub_piece := l |}.

Definition is_unload_of (n : string) (c : Effect) : bool :=
  match c with
  | StoreUnload l => String.eqb (name l) n
  | _ => false
  end.

(** A queued effect that cannot subscribe the piece named [n], call its
    [run] or unsubscribe it: it concerns another piece, or reports an error,
    or unloads a [once] piece. *)
Definition harmless (n : string) (c : Effect) : bool :=
  match c with
  | EmitListenerError _ _ => true
  | StoreUnload l => negb (String.eqb (name l) n) || once l
  | CallRun l _ | EmitterOn _ _ l | EmitterOnce _ _ l | EmitterOff _ _ l =>
    negb (String.eqb (name l) n)
  end.

(** A world that has not met the piece named [n] yet. *)
Definition unaware_of (n : string) (w : World) : Prop :=
  List.filter (named n) (subscriptions w) = [] /\
  forallb (harmless n) (microtasks w) = true /\
  calls_of n (history w) = 0 /\
  List.filter (is_off_of n) (history w) = [].

(** What is followed of the piece named [n]: its subscriptions [subs], in
    the emitter's order; the number [k] of calls of its [run]; and that
    nothing queued can subscribe it, call it or unsubscribe it. *)
Record tracked (n : string) (subs : list Subscription) (k : nat) (w : World)
  : Prop := {
  tracked_subscriptions : List.filter (named n) (subscriptions w) = subs;
  tracked_calls : calls_of n (history w) = k;
  tracked_queue : forallb (harmless n) (microtasks w) = true
}.

(** Where a [once] listener stands while an emission is under way: [Armed],
    subscribed and not called; [Taken], its subscription removed for the
    call the emission is about to make; [Fired], called. *)
Inductive Phase : Type := Armed | Taken | Fired.

Definition phase_subscriptions (l : Listener) (e : EventEmitter) (p : Phase)
  : list Subscription :=
  match p with
  | Armed => [subscription_of l e]
  | Taken | Fired => []
  end.

Definition phase_calls (p : Phase) : nat :=
  match p with
  | Fired => 1
  | Armed | Taken => 0
  end.

(** The state of a [once] listener [l] loaded on emitter [e]: armed (not
    [fired]), with its one subscription in place and [run] never called; or
    [fired], unsubscribed, with [run] called once.  In both states nothing
    queued can subscribe it again, and no [off] was issued for it. *)
Record once_state (l : Listener) (e : EventEmitter) (fired : bool) (w : World)
  : Prop := {
  once_subscriptions :
    List.filter (named (name l)) (subscriptions w)
    = if fired then [] else [subscription_of l e];
  once_calls : calls_of (name l) (history w) = if fired then 1 else 0;
  once_queue : forallb (harmless (name l)) (microtasks w) = true;
  once_no_off : List.filter (is_off_of (name l)) (history w) = []
}.

(** The unloading of the piece named [n] is queued, or the store no longer
    holds it. *)
Definition unload_due (n : string) (w : World) : bool :=
  existsb (is_unload_of n) (microtasks w)
  || negb (existsb (String.eqb n) (pieces w)).

(** What the wrapper does after the call of [run]: the error report, if
    [run] failed, and the unloading, for a [once] listener. *)
Definition continuation (l : Listener) (args : list JSValue) : list Effect :=
  match awaited (run l args) with
  | Fulfilled _ => []
  | Rejected error => [EmitListenerError error l]
  end ++ (if once l then [StoreUnload l] else []).

Definition is_emits (e : EventEmitter) (ev : string) (s : Stimulus) : bool :=
  match s with
  | Emits e' ev' _ => String.eqb e' e && String.eqb ev' ev
  | Tick => false
  end.

End Listener.

(* ===================================================================== *)
(** * Concrete clients, messages and listeners                            *)
(* ===================================================================== *)

Module Scenario.
Import JS CoreMessageParser.

Definition botId : string := "123456789012345678".

Definition human : User := {| bot := false |}.

Definition directMessage (text : string) : Message :=
  {| author := human; webhookID := None; content := text; channel := DMChannel |}.

(** A client with dynamic prefixes only. *)
Definition plainClient : Client :=
  {| id := Some botId;
     options := {| regexPrefix := None |};
     fetchPrefix := fun _ => Fulfilled (PrefixArray ["!"; "?"]) |}.

(** A client for which all three tiers apply to a message that starts with
    a mention. *)
Definition patternClient : Client :=
  {| id := Some botId;
     options := {| regexPrefix := Some {| source := "^<@" |} |};
     fetchPrefix := fun _ => Fulfilled (PrefixArray ["<@"; "!"]) |}.

Definition permission_eqb (a b : PermissionString) : bool :=
  match a, b with
  | ADMINISTRATOR, ADMINISTRATOR
  | VIEW_CHANNEL, VIEW_CHANNEL
  | SEND_MESSAGES, SEND_MESSAGES
  | MANAGE_MESSAGES, MANAGE_MESSAGES => true
  | _, _ => false
  end.

(** A permission object holding the flags [granted]; with the second
    argument set, the administrator flag stands for every permission. *)
Definition permissionsOf (granted : list PermissionString) : Permissions :=
  {| has := fun required flag =>
       (flag && existsb (permission_eqb ADMINISTRATOR) granted)
       || forallb (fun p => existsb (permission_eqb p) granted) required |}.

Definition ownMember : GuildMember := {| member_id := botId |}.

Definition guildChannel (cached : option GuildMember)
    (fetch : string -> Settled GuildMember) (granted : list PermissionString)
  : GuildChannel :=
  {| guild := {| me := cached; members_fetch := fetch |};
     permissionsFor := fun _ => permissionsOf granted |}.

Definition guildMessage (c : GuildChannel) (text : string) : Message :=
  {| author := human; webhookID := None; content := text; channel := TextChannel c |}.

Definition unknownMember : JSError := Error "Unknown Member".

(** A guild whose own membership is neither cached nor fetchable. *)
Definition unreachableGuild : GuildChannel :=
  guildChannel None (fun _ => Rejected unknownMember) [VIEW_CHANNEL; SEND_MESSAGES].

(** A registry with one precondition, which reads a limit from its context. *)
Definition nsfw : PreconditionContainerSingle.Precondition :=
  {| PreconditionContainerSingle.precondition_run := fun _ _ ctx =>
       match ctx !! "limit" with
       | Some (VNumber n) =>
         Returned (Value (if n <? 5 then PreconditionContainerSingle.ok
                          else PreconditionContainerSingle.err "preconditionLimit"))
       | _ => Returned (Value PreconditionContainerSingle.ok)
       end |}.

Definition registry : PreconditionContainerSingle.Container :=
  {| PreconditionContainerSingle.preconditions := {[ "nsfw" := nsfw ]} |}.

Definition help : PreconditionContainerSingle.Command :=
  {| PreconditionContainerSingle.command_name := "help" |}.

Definition nodeContext : gmap string JSValue := {[ "limit" := VNumber 3 ]}.

Definition callerContext : gmap string JSValue :=
  <[ "external" := VBool true ]> {[ "limit" := VNumber 9 ]}.

(** A persistent listener whose [run] throws, and a [once] listener whose
    [run] returns a rejecting promise. *)
Definition failingListener : Listener.Listener :=
  Listener.new (fun _ => None) (fun _ => Thrown (Error "boom"))
    {| Listener.context_name := "failing"; Listener.context_path := "/listeners/failing.js" |}
    {| Listener.options_name := None;
       Listener.options_emitter := None;
       Listener.options_event := Some "ready";
       Listener.options_once := None |}.

Definition readyOnce : Listener.Listener :=
  Listener.new (fun _ => None)
    (fun _ => Returned (Promise (Rejected (Error "late"))))
    {| Listener.context_name := "ready"; Listener.context_path := "/listeners/ready.js" |}
    {| Listener.options_name := None;
       Listener.options_emitter := None;
       Listener.options_event := None;
       Listener.options_once := Some true |}.

End Scenario.

(* ===================================================================== *)
(** * The wrappers of [Listener.ts], with an emission that may throw      *)
(* ===================================================================== *)

(** [Listener._run] above takes [client.emit] to return normally, which it
    does whenever every subscriber of [Events.ListenerError] is itself a
    wrapper of this file (an [async] function never throws at its caller).
    A function subscribed directly may throw, and Node's [emit] lets the
    throw through.  The wrappers are given here once more, lines 84-95, with
    the completion of that emission left open. *)

Module Wrapper.
Import JS Listener.

(** How [client.emit(Events.ListenerError, error, { piece })] completes: it
    returns, or it throws what a subscriber threw. *)
Definition Emission : Type := JSError -> Listener -> Completion unit.

(** A synchronous call inside an [async] body: it is recorded, and a throw
    of the callee rejects the promise of the body. *)
Definition call {A : Type} (e : Effect) (c : Completion A) : Async Effect A :=
  ([e],
   match c with
   | Returned a => Fulfilled a
   | Thrown error => Rejected error
   end).

Definition _run (emitted : Emission) (this : Listener) (args : list JSValue)
  : Async Effect unit :=
  try_catch
    (_ <~ await (CallRun this args) (awaited (run this args)) ;; ret tt)%async
    (fun error => call (EmitListenerError error this) (emitted error this)).

Definition _runOnce (emitted : Emission) (unload : Listener -> Settled unit)
    (this : Listener) (args : list JSValue) : Async Effect unit :=
  (_ <~ _run emitted this args ;;
   await (StoreUnload this) (unload this))%async.

(** [#listener]: the function the constructor binds and [onLoad] subscribes,
    [None] being [null]. *)
Definition bound (emitted : Emission) (unload : Listener -> Settled unit)
    (this : Listener) : option (list JSValue -> Async Effect unit) :=
  match listener this with
  | Some Bound_run => Some (_run emitted this)
  | Some Bound_runOnce => Some (_runOnce emitted unload this)
  | None => None
  end.

(** An emission that returns normally, and one in which a subscriber throws
    the error it is handed. *)
Definition returns : Emission := fun _ _ => Returned tt.
Definition rethrows : Emission := fun error _ => Thrown error.

End Wrapper.

(* ===================================================================== *)
(** * The core listener of [Events.ListenerError]                         *)
(* ===================================================================== *)

Module CoreListenerError.
Import JS.

(** [ListenerErrorPayload] *)
Record ListenerErrorPayload : Type := {
  piece : Listener.Listener
}.

(** The one external call of the listener: [this.container.logger.error]. *)
Inductive Effect : Type :=
| LoggerError (message : string) (error : JSError).

Definition run (error : JSError) (context : ListenerErrorPayload) : list Effect :=
  let name := Listener.name (piece context) in
  let event := Listener.event (piece context) in
  let path := Listener.path (piece context) in
  [LoggerError
     ("Encountered error on event listener " ++ dquote ++ name ++ dquote
      ++ " for event " ++ dquote ++ event ++ dquote
      ++ " at path " ++ dquote ++ path ++ dquote)
     error].

(** No double quote occurs in [s]. *)
Fixpoint quote_free (s : string) : bool :=
  match s with
  | EmptyString => true
  | String c s' => negb (Ascii.eqb c (Ascii.ascii_of_nat 34)) && quote_free s'
  end.

End CoreListenerError.

(* ===================================================================== *)
(** * Persistent listeners in the world                                   *)
(* ===================================================================== *)

Module PersistentListener.
Import JS Listener.

(** How many stimuli of a schedule are emissions of [ev] on [e]. *)
Definition emissions (e : EventEmitter) (ev : string) (schedule : list Stimulus)
  : nat :=
  List.length (List.filter (is_emits e ev) schedule).

(** What an emission of [ev] on [e'] adds to the calls of a listener [l]
    subscribed on [e]: one call when the emission is for it, none otherwise. *)
Definition heard (l : Listener) (e e' : EventEmitter) (ev : string) : nat :=
  if listens e' ev (subscription_of l e) then 1 else 0.

(** The state of a persistent listener [l] loaded on emitter [e]: its one
    subscription is in place, [run] has been called [k] times, and nothing
    queued can unsubscribe it or call it behind the emitter's back. *)
Record persistent_state (l : Listener) (e : EventEmitter) (k : nat) (w : World)
  : Prop := {
  persistent_subscriptions :
    List.filter (named (name l)) (subscriptions w) = [subscription_of l e];
  persistent_calls : calls_of (name l) (history w) = k;
  persistent_queue : forallb (harmless (name l)) (microtasks w) = true
}.

End PersistentListener.

(* ===================================================================== *)
(** * Properties of the message parser                                    *)
(* ===================================================================== *)

Module CoreMessageParserProperties.
Import JS CoreMessageParser.

(** ** Strings *)

Lemma get_Some_lt (s : string) (n : nat) (c : ascii) :
  String.get n s = Some c -> n < String.length s.
Proof.
  revert n. induction s as [|a s IH]; intros n H; simpl in *.
  - destruct n; discriminate.
  - destruct n as [|n]; [lia|]. apply IH in H. lia.
Qed.

Lemma length_substring_0 (s : string) (n : nat) :
  n <= String.length s -> String.length (String.substring 0 n s) = n.
Proof.
  revert n. induction s as [|a s IH]; intros n H; simpl in *.
  - destruct n; [reflexivity | lia].
  - destruct n as [|n]; [reflexivity|]. simpl. rewrite IH; lia.
Qed.

Lemma prefix_substring_0 (s : string) (n : nat) :
  String.prefix (String.substring 0 n s) s = true.
Proof.
  revert n. induction s as [|a s IH]; intros n; simpl.
  - destruct n; reflexivity.
  - destruct n as [|n]; simpl; [reflexivity|].
    destruct (Ascii.ascii_dec a a) as [_|Hne]; [apply IH | congruence].
Qed.

Lemma truthy_Some (s : string) : truthy (Some s) = true <-> s <> "".
Proof.
  unfold truthy. destruct (String.eqb_spec s ""); simpl; split; congruence.
Qed.

Lemma index_is_spec (s : string) (i : nat) (c : ascii) :
  index_is s i c = true <-> at_index s i = Some c.
Proof.
  unfold index_is. destruct (at_index s i) as [d|].
  - destruct (Ascii.eqb_spec d c); split; congruence.
  - split; discriminate.
Qed.

(** ** [getMentionPrefix] *)

Lemma getMentionPrefix_known (client : Client) (content i : string) :
  id client = Some i -> i <> "" ->
  getMentionPrefix client content =
    if (20 <=? String.length content)
       && startsWith content "<@"
       && index_is content (mentionOffset content + String.length i) ">"%char
       && String.eqb (substr content (mentionOffset content) (String.length i)) i
    then Some (substr content 0 (mentionOffset content + String.length i + 1))
    else None.
Proof.
  intros Hid Hne. unfold getMentionPrefix, mentionOffset. rewrite Hid.
  apply truthy_Some in Hne. rewrite Hne. cbn [negb].
  destruct (Nat.ltb_spec (String.length content) 20) as [Hlt|Hge];
    destruct (Nat.leb_spec 20 (String.length content)) as [Hle|Hgt]; try lia;
    cbn [orb andb]; [reflexivity|].
  destruct (startsWith content "<@"); cbn [negb andb]; [|reflexivity].
  destruct (index_is content _ ">"); cbn [negb andb]; reflexivity.
Qed.

Lemma isMention_decide (i content : string) :
  isMention i content <->
  (20 <=? String.length content)
  && startsWith content "<@"
  && index_is content (mentionOffset content + String.length i) ">"%char
  && String.eqb (substr content (mentionOffset content) (String.length i)) i = true.
Proof.
  unfold isMention. rewrite !andb_true_iff, Nat.leb_le, index_is_spec, String.eqb_eq.
  tauto.
Qed.

Lemma getMentionPrefix_truthy (client : Client) (content : string) :
  truthy (getMentionPrefix client content)
  = match getMentionPrefix client content with Some _ => true | None => false end.
Proof.
  destruct (getMentionPrefix client content) as [tok|] eqn:E; [|reflexivity].
  unfold getMentionPrefix in E.
  destruct (id client) as [i|]; [|discriminate].
  destruct (negb (truthy (Some i))); [discriminate|].
  destruct (_ || _); [discriminate|].
  destruct (negb (index_is content _ ">")) eqn:Hc; [discriminate|].
  destruct (String.eqb _ i); [|discriminate].
  injection E as <-. apply negb_false_iff, index_is_spec, get_Some_lt in Hc.
  apply truthy_Some. intros Hempty.
  assert (Hlen : String.length
            (substr content 0 ((if index_is content 2 "!" then 3 else 2)
                               + String.length i + 1)) = 0)
    by (rewrite Hempty; reflexivity).
  unfold substr in Hlen. rewrite length_substring_0 in Hlen; lia.
Qed.

(** ** The gates and what follows them *)

Lemma canRunInChannel_no_fetchPrefix (client : Client) (message : Message) :
  List.filter is_fetchPrefix (trace (canRunInChannel client message)) = [].
Proof.
  unfold canRunInChannel.
  destruct (channel message) as [|c|c]; simpl; try reflexivity;
    (destruct (me (guild c)); simpl; [reflexivity|];
     destruct (id client) as [i|]; simpl; [|reflexivity];
     destruct (negb (String.eqb i "")); simpl; [|reflexivity];
     destruct (members_fetch (guild c) i); reflexivity).
Qed.

Lemma canRunInChannel_no_emit (client : Client) (message : Message) :
  List.filter is_emit (trace (canRunInChannel client message)) = [].
Proof.
  unfold canRunInChannel.
  destruct (channel message) as [|c|c]; simpl; try reflexivity;
    (destruct (me (guild c)); simpl; [reflexivity|];
     destruct (id client) as [i|]; simpl; [|reflexivity];
     destruct (negb (String.eqb i "")); simpl; [|reflexivity];
     destruct (members_fetch (guild c) i); reflexivity).
Qed.

(** Past the gates, [run] is the three-tier resolution. *)
Lemma run_past_gates (client : Client) (message : Message) (t : list Effect) :
  passesGates client message t ->
  run client message =
    match getMentionPrefix client (content message) with
    | Some tok =>
      if (String.length (content message) =? String.length tok)%nat
      then (t ++ [Emit (MentionPrefixOnly message)], Fulfilled tt)
      else (t ++ [Emit (PrefixedMessage message (StringPrefix tok))], Fulfilled tt)
    | None => bind (t, Fulfilled tt) (fun _ => laterTiers client message)
    end.
Proof.
  intros (Hbot & Hweb & Hgate). unfold run.
  rewrite Hbot, Hweb, Hgate, getMentionPrefix_truthy. simpl.
  destruct (getMentionPrefix client (content message)) as [tok|].
  - destruct (String.length (content message) =? String.length tok)%nat; reflexivity.
  - unfold laterTiers. destruct (regexPrefix (options client)); simpl; [reflexivity|].
    destruct (fetchPrefix client message) as [p|e]; simpl; [|reflexivity].
    destruct (getPrefix (content message) p); reflexivity.
Qed.

(** ** The handler ignores bots and webhooks *)

(** C10. For every inbound message whose author is a bot or which carries a
    webhook identifier, the handler returns at once: whatever the client,
    the guild and the channel would answer, [run] performs no effect at all
    (no membership fetch and no permission query, no prefix fetch) and emits
    neither the mention-only nor the prefixed-message event. *)
Theorem run_ignores_bots_and_webhooks (client : Client) (message : Message) :
  bot (author message) = true \/ truthy (webhookID message) = true ->
  run client message = ([], Fulfilled tt).
Proof.
  intros H. unfold run.
  destruct H as [-> | ->]; [reflexivity | rewrite orb_true_r; reflexivity].
Qed.

Lemma run_ignores_bots_and_webhooks_witness :
  (let message :=
     {| author := {| bot := true |}; webhookID := Some "9001";
        content := "!help"; channel := TextChannel Scenario.unreachableGuild |} in
   (bot (author message) = true \/ truthy (webhookID message) = true)
   /\ run Scenario.plainClient message = ([], Fulfilled tt)).
Proof.
  cbv zeta. split.
  - left. reflexivity.
  - apply run_ignores_bots_and_webhooks. left. reflexivity.
Defined.

(** ** The permission gate *)

(** C5 (amended). The gate returns [true] for every message in a direct
    message channel.  In a guild channel: with the own membership cached it
    returns [has(required, false)] of the member's permissions in the
    channel, [required] being view-channel and send-messages; with no
    cached membership and no client id it returns [false]; with no cached
    membership and a client id it fetches the member, and returns the same
    permission test when the fetch fulfils, but rejects with the error of
    the fetch when the fetch rejects. *)
Theorem canRunInChannel_spec (client : Client) (message : Message) :
  requiredPermissions = [VIEW_CHANNEL; SEND_MESSAGES] /\
  (channel message = DMChannel ->
   canRunInChannel client message = ([], Fulfilled true)) /\
  (forall c, channel message = TextChannel c \/ channel message = NewsChannel c ->
     (forall m, me (guild c) = Some m ->
        canRunInChannel client message
        = ([], Fulfilled (has (permissionsFor c m) requiredPermissions false))) /\
     (me (guild c) = None -> truthy (id client) = false ->
        canRunInChannel client message = ([], Fulfilled false)) /\
     (forall i m, me (guild c) = None -> id client = Some i -> i <> "" ->
        members_fetch (guild c) i = Fulfilled m ->
        canRunInChannel client message
        = ([MembersFetch i],
           Fulfilled (has (permissionsFor c m) requiredPermissions false))) /\
     (forall i e, me (guild c) = None -> id client = Some i -> i <> "" ->
        members_fetch (guild c) i = Rejected e ->
        canRunInChannel client message = ([MembersFetch i], Rejected e))).
Proof.
  split; [reflexivity|]. split.
  - intros H. unfold canRunInChannel. rewrite H. reflexivity.
  - intros c Hc.
    assert (E : canRunInChannel client message =
      bind (match me (guild c) with
            | Some m => ret (Some m)
            | None =>
              match id client with
              | Some i =>
                if truthy (Some i)
                then bind (await (MembersFetch i) (members_fetch (guild c) i))
                       (fun m => ret (Some m))
                else ret None
              | None => ret None
              end
            end)
        (fun me => match me with
                   | None => ret false
                   | Some me =>
                     ret (has (permissionsFor c me) requiredPermissions false)
                   end))
      by (unfold canRunInChannel; destruct Hc as [-> | ->]; reflexivity).
    rewrite E. clear E. repeat split.
    + intros m ->. reflexivity.
    + intros -> Hid. destruct (id client) as [i|]; [|reflexivity].
      rewrite Hid. reflexivity.
    + intros i m -> -> Hne Hf. apply truthy_Some in Hne. rewrite Hne, Hf. reflexivity.
    + intros i e -> -> Hne Hf. apply truthy_Some in Hne. rewrite Hne, Hf. reflexivity.
Qed.

(** At a guild whose own membership is neither cached nor fetchable, the
    gate does not return [false]: it rejects. *)
Lemma canRunInChannel_unreachable_counterexample :
  let message := Scenario.guildMessage Scenario.unreachableGuild "!help" in
  me (guild Scenario.unreachableGuild) = None /\
  members_fetch (guild Scenario.unreachableGuild) Scenario.botId
    = Rejected Scenario.unknownMember /\
  canRunInChannel Scenario.plainClient message
    = ([MembersFetch Scenario.botId], Rejected Scenario.unknownMember) /\
  outcome (canRunInChannel Scenario.plainClient message) <> Fulfilled false.
Proof.
  cbv zeta. repeat split. vm_compute. discriminate.
Qed.

Lemma canRunInChannel_spec_witness :
  let c := Scenario.guildChannel None (fun _ => Fulfilled Scenario.ownMember)
             [VIEW_CHANNEL] in
  let message := Scenario.guildMessage c "!help" in
  (channel message = TextChannel c \/ channel message = NewsChannel c) /\
  me (guild c) = None /\
  id Scenario.plainClient = Some Scenario.botId /\
  Scenario.botId <> "" /\
  members_fetch (guild c) Scenario.botId = Fulfilled Scenario.ownMember /\
  canRunInChannel Scenario.plainClient message
    = ([MembersFetch Scenario.botId], Fulfilled false).
Proof.
  cbv zeta.
  split; [left; reflexivity|].
  split; [reflexivity|]. split; [reflexivity|]. split; [discriminate|].
  split; [reflexivity|].
  destruct (canRunInChannel_spec Scenario.plainClient
              (Scenario.guildMessage
                 (Scenario.guildChannel None (fun _ => Fulfilled Scenario.ownMember)
                    [VIEW_CHANNEL]) "!help")) as (_ & _ & H).
  destruct (H _ (or_introl eq_refl)) as (_ & _ & Hfetch & _).
  apply (Hfetch Scenario.botId Scenario.ownMember);
    [reflexivity | reflexivity | discriminate | reflexivity].
Defined.

(** ** Mention detection *)

(** C2. For every content and known (non-empty) bot identifier: when the
    content has at least 20 characters, starts with [<@], has [>] at index
    [offset + identifierLength] (offset 3 if the character at index 2 is
    [!], else 2) and the [identifierLength] characters from [offset] are
    the identifier, detection returns the first
    [offset + identifierLength + 1] characters of the content, a token of
    exactly that length; in every other case, and so whenever the close
    marker is missing, it returns no mention, and a message that passes the
    gates is then resolved by the later tiers. *)
Theorem getMentionPrefix_exactly_when (client : Client) (content_ i : string) :
  id client = Some i -> i <> "" ->
  let offset := mentionOffset content_ in
  let token := substr content_ 0 (offset + String.length i + 1) in
  (offset = if index_is content_ 2 "!"%char then 3 else 2) /\
  (isMention i content_ ->
     getMentionPrefix client content_ = Some token /\
     String.length token = offset + String.length i + 1 /\
     startsWith content_ token = true) /\
  (~ isMention i content_ -> getMentionPrefix client content_ = None) /\
  (at_index content_ (offset + String.length i) <> Some ">"%char ->
     getMentionPrefix client content_ = None) /\
  (getMentionPrefix client content_ = None ->
     forall message t, content message = content_ ->
       passesGates client message t ->
       run client message = bind (t, Fulfilled tt) (fun _ => laterTiers client message)).
Proof.
  intros Hid Hne offset token. split; [reflexivity|].
  pose proof (getMentionPrefix_known client content_ i Hid Hne) as E.
  pose proof (isMention_decide i content_) as D.
  split; [|split; [|split]].
  - intros HM. pose proof HM as (_ & _ & Hclose & _).
    apply D in HM. rewrite HM in E. split; [exact E|].
    apply get_Some_lt in Hclose. fold offset in Hclose. split.
    + unfold token, substr. apply length_substring_0. lia.
    + unfold token, startsWith, substr. apply prefix_substring_0.
  - intros HM. destruct (_ && _) eqn:B in E; [|exact E].
    exfalso. apply HM, D. exact B.
  - intros Hclose. destruct (_ && _) eqn:B in E; [|exact E].
    exfalso. apply D in B. destruct B as (_ & _ & B & _). exact (Hclose B).
  - intros Hnone message t Hc Hg. rewrite (run_past_gates client message t Hg).
    rewrite Hc, Hnone. reflexivity.
Qed.

Lemma getMentionPrefix_exactly_when_witness :
  let content_ := "<@!123456789012345678> ping" in
  id Scenario.plainClient = Some Scenario.botId /\
  Scenario.botId <> "" /\
  isMention Scenario.botId content_ /\
  getMentionPrefix Scenario.plainClient content_ = Some "<@!123456789012345678>".
Proof.
  cbv zeta.
  assert (HM : isMention Scenario.botId "<@!123456789012345678> ping").
  { unfold isMention. vm_compute. repeat split. lia. }
  split; [reflexivity|]. split; [discriminate|]. split; [exact HM|].
  destruct (getMentionPrefix_exactly_when Scenario.plainClient
              "<@!123456789012345678> ping" Scenario.botId eq_refl
              ltac:(discriminate)) as (_ & H & _).
  destruct (H HM) as (E & _). exact E.
Defined.

(** ** Resolution *)

(** C3. For every message that reaches resolution and whose content is
    exactly as long as the detected mention token, [run] emits the
    mention-only event and nothing else: no prefixed-message event. *)
Theorem bare_mention_is_mention_only (client : Client) (message : Message)
    (t : list Effect) (tok : string) :
  passesGates client message t ->
  getMentionPrefix client (content message) = Some tok ->
  String.length (content message) = String.length tok ->
  run client message = (t ++ [Emit (MentionPrefixOnly message)], Fulfilled tt) /\
  List.filter is_emit (trace (run client message)) = [Emit (MentionPrefixOnly message)].
Proof.
  intros Hg Htok Hlen.
  assert (E : run client message
              = (t ++ [Emit (MentionPrefixOnly message)], Fulfilled tt)).
  { rewrite (run_past_gates client message t Hg), Htok.
    apply Nat.eqb_eq in Hlen. rewrite Hlen. reflexivity. }
  split; [exact E|]. rewrite E. unfold trace. cbn [fst].
  rewrite List.filter_app.
  pose proof (canRunInChannel_no_emit client message) as Hno.
  destruct Hg as (_ & _ & Hgate). rewrite Hgate in Hno. unfold trace in Hno.
  cbn [fst] in Hno. rewrite Hno. reflexivity.
Qed.

Lemma bare_mention_is_mention_only_witness :
  let message := Scenario.directMessage "<@123456789012345678>" in
  passesGates Scenario.plainClient message [] /\
  getMentionPrefix Scenario.plainClient (content message)
    = Some "<@123456789012345678>" /\
  run Scenario.plainClient message = ([Emit (MentionPrefixOnly message)], Fulfilled tt).
Proof.
  cbv zeta.
  assert (Hg : passesGates Scenario.plainClient
                 (Scenario.directMessage "<@123456789012345678>") [])
    by (repeat split; reflexivity).
  split; [exact Hg|]. split; [reflexivity|].
  destruct (bare_mention_is_mention_only Scenario.plainClient
              (Scenario.directMessage "<@123456789012345678>") []
              "<@123456789012345678>" Hg eq_refl eq_refl) as (E & _).
  exact E.
Defined.

(** C4 (amended). With bot identifier [123456789012345678], a message that
    reaches resolution with the text [<@123456789012345678>] followed by one
    space is one character longer than the mention token: [run] emits the
    prefixed-message event with the token as prefix, and no mention-only
    event.  It is the text without the trailing space that yields the
    mention-only event. *)
Theorem scenario_mention_with_trailing_space (client : Client) (message : Message)
    (t : list Effect) :
  id client = Some "123456789012345678" ->
  passesGates client message t ->
  (content message = "<@123456789012345678> " ->
   run client message
   = (t ++ [Emit (PrefixedMessage message (StringPrefix "<@123456789012345678>"))],
      Fulfilled tt)) /\
  (content message = "<@123456789012345678>" ->
   run client message = (t ++ [Emit (MentionPrefixOnly message)], Fulfilled tt)).
Proof.
  intros Hid Hg.
  pose proof (fun c => getMentionPrefix_known client c _ Hid ltac:(discriminate)) as E.
  split; intros Hc; rewrite (run_past_gates client message t Hg), Hc, E; reflexivity.
Qed.

Lemma scenario_mention_with_trailing_space_witness :
  let message := Scenario.directMessage "<@123456789012345678> " in
  id Scenario.plainClient = Some "123456789012345678" /\
  passesGates Scenario.plainClient message [] /\
  run Scenario.plainClient message
  = ([Emit (PrefixedMessage message (StringPrefix "<@123456789012345678>"))],
     Fulfilled tt).
Proof.
  cbv zeta.
  assert (Hg : passesGates Scenario.plainClient
                 (Scenario.directMessage "<@123456789012345678> ") [])
    by (repeat split; reflexivity).
  split; [reflexivity|]. split; [exact Hg|].
  destruct (scenario_mention_with_trailing_space Scenario.plainClient
              (Scenario.directMessage "<@123456789012345678> ") [] eq_refl Hg)
    as (H & _).
  exact (H eq_refl).
Defined.

(** On the scenario's input the handler emits the prefixed-message event and
    not the mention-only event. *)
Lemma scenario_mention_with_trailing_space_counterexample :
  let message := Scenario.directMessage "<@123456789012345678> " in
  id Scenario.plainClient = Some "123456789012345678" /\
  String.length (content message) = 22 /\
  getMentionPrefix Scenario.plainClient (content message)
    = Some "<@123456789012345678>" /\
  run Scenario.plainClient message
    = ([Emit (PrefixedMessage message (StringPrefix "<@123456789012345678>"))],
       Fulfilled tt) /\
  ~ In (Emit (MentionPrefixOnly message)) (trace (run Scenario.plainClient message)).
Proof.
  cbv zeta. repeat split. vm_compute. intros [H | []]. discriminate H.
Qed.

(** C1 (amended). For every message that reaches resolution: if a mention
    is detected and the content is longer than the mention token, [run]
    emits the prefixed-message event with the mention token, whatever
    pattern is configured and whatever the dynamic prefixes would be (a
    content that is exactly the token yields the mention-only event
    instead); if no mention is detected and a pattern is configured, [run]
    emits the prefixed-message event with the pattern; and as soon as a
    mention is detected or a pattern is configured, the dynamic prefixes are
    not fetched. *)
Theorem tier_precedence (client : Client) (message : Message) (t : list Effect) :
  passesGates client message t ->
  (forall tok, getMentionPrefix client (content message) = Some tok ->
     String.length (content message) <> String.length tok ->
     run client message
     = (t ++ [Emit (PrefixedMessage message (StringPrefix tok))], Fulfilled tt)) /\
  (forall r, getMentionPrefix client (content message) = None ->
     regexPrefix (options client) = Some r ->
     run client message
     = (t ++ [Emit (PrefixedMessage message (PatternPrefix r))], Fulfilled tt)) /\
  (getMentionPrefix client (content message) <> None
   \/ regexPrefix (options client) <> None ->
   List.filter is_fetchPrefix (trace (run client message)) = []).
Proof.
  intros Hg. pose proof (run_past_gates client message t Hg) as E.
  pose proof (canRunInChannel_no_fetchPrefix client message) as Hno.
  destruct Hg as (_ & _ & Hgate). rewrite Hgate in Hno.
  unfold trace in Hno. cbn [fst] in Hno.
  split; [|split].
  - intros tok Htok Hlen. rewrite E, Htok.
    apply Nat.eqb_neq in Hlen. rewrite Hlen. reflexivity.
  - intros r Hnone Hr. rewrite E, Hnone. unfold laterTiers. rewrite Hr.
    reflexivity.
  - intros H. rewrite E.
    destruct (getMentionPrefix client (content message)) as [tok|].
    + destruct (_ =? _); unfold trace; cbn [fst];
        rewrite List.filter_app, Hno; reflexivity.
    + destruct H as [H | H]; [congruence|]. unfold laterTiers.
      destruct (regexPrefix (options client)) as [r|]; [|congruence].
      unfold trace. cbn. rewrite List.filter_app, Hno. reflexivity.
Qed.

Lemma tier_precedence_witness :
  let message := Scenario.directMessage "<@123456789012345678> ping" in
  passesGates Scenario.patternClient message [] /\
  getMentionPrefix Scenario.patternClient (content message)
    = Some "<@123456789012345678>" /\
  String.length (content message) <> String.length "<@123456789012345678>" /\
  run Scenario.patternClient message
  = ([Emit (PrefixedMessage message (StringPrefix "<@123456789012345678>"))],
     Fulfilled tt).
Proof.
  cbv zeta.
  assert (Hg : passesGates Scenario.patternClient
                 (Scenario.directMessage "<@123456789012345678> ping") [])
    by (repeat split; reflexivity).
  assert (Hlen : String.length
                   (content (Scenario.directMessage "<@123456789012345678> ping"))
                 <> String.length "<@123456789012345678>")
    by (vm_compute; lia).
  split; [exact Hg|]. split; [reflexivity|]. split; [exact Hlen|].
  destruct (tier_precedence Scenario.patternClient
              (Scenario.directMessage "<@123456789012345678> ping") [] Hg)
    as (H & _).
  exact (H "<@123456789012345678>" eq_refl Hlen).
Defined.

(** A bare mention on a client with a pattern and matching dynamic prefixes:
    all three tiers would match, and no prefix is selected. *)
Lemma tier_precedence_counterexample :
  let message := Scenario.directMessage "<@123456789012345678>" in
  passesGates Scenario.patternClient message [] /\
  getMentionPrefix Scenario.patternClient (content message)
    = Some "<@123456789012345678>" /\
  regexPrefix (options Scenario.patternClient) = Some {| source := "^<@" |} /\
  fetchPrefix Scenario.patternClient message = Fulfilled (PrefixArray ["<@"; "!"]) /\
  getPrefix (content message) (PrefixArray ["<@"; "!"]) = Some "<@" /\
  run Scenario.patternClient message
    = ([Emit (MentionPrefixOnly message)], Fulfilled tt) /\
  (forall p, ~ In (Emit (PrefixedMessage message p))
               (trace (run Scenario.patternClient message))).
Proof.
  cbv zeta. repeat split. intros p. vm_compute. intros [H | []]. discriminate H.
Qed.

End CoreMessageParserProperties.

(* ===================================================================== *)
(** * Properties of the single precondition container                     *)
(* ===================================================================== *)

Module PreconditionContainerSingleProperties.
Import JS PreconditionContainerSingle.

(** C6. For every [Single] node whose name is absent from the registry when
    it is run, [run] throws synchronously: it completes with [Thrown], not
    with a returned pass or fail, and its trace is empty, so no precondition
    of the registry was invoked. *)
Theorem run_unregistered_throws (container : Container)
    (this : PreconditionContainerSingle) (message : Message) (command : Command)
    (context_arg : option (gmap string JSValue)) :
  preconditions container !! name this = None ->
  run container this message command context_arg
  = ([], Thrown (Error ("The precondition " ++ dquote ++ name this ++ dquote
                        ++ " is not available."))) /\
  (forall r, snd (run container this message command context_arg) <> Returned r).
Proof.
  intros H. unfold run. rewrite H. split; [reflexivity|].
  intros r. discriminate.
Qed.

Lemma run_unregistered_throws_witness :
  let node := new (ResolvableName "ownerOnly") in
  let message := Scenario.directMessage "!help" in
  preconditions Scenario.registry !! name node = None /\
  run Scenario.registry node message Scenario.help None
  = ([], Thrown (Error ("The precondition " ++ dquote ++ "ownerOnly" ++ dquote
                        ++ " is not available."))).
Proof.
  cbv zeta.
  assert (H : preconditions Scenario.registry !! name (new (ResolvableName "ownerOnly"))
              = None) by reflexivity.
  split; [exact H|].
  destruct (run_unregistered_throws Scenario.registry
              (new (ResolvableName "ownerOnly")) (Scenario.directMessage "!help")
              Scenario.help None H) as (E & _).
  exact E.
Defined.

(** C7. For every [Single] node whose name is present in the registry, the
    precondition found there is invoked, once, with the message, the
    command and a merged context in which every key of the node's stored
    context has the node's value and every other key has what the caller
    supplied (nothing when the caller supplied no context). *)
Theorem run_merges_context (container : Container)
    (this : PreconditionContainerSingle) (message : Message) (command : Command)
    (context_arg : option (gmap string JSValue)) (precondition : Precondition) :
  preconditions container !! name this = Some precondition ->
  exists merged : gmap string JSValue,
    run container this message command context_arg
    = ([PreconditionRun (name this) message command merged],
       precondition_run precondition message command merged) /\
    (forall k v, context this !! k = Some v -> merged !! k = Some v) /\
    (forall k, context this !! k = None ->
       merged !! k = default ∅ context_arg !! k).
Proof.
  intros H. exists (spread (default ∅ context_arg) (context this)).
  unfold run. rewrite H. split; [reflexivity|]. unfold spread. split.
  - intros k v Hk. apply lookup_union_Some_l. exact Hk.
  - intros k Hk. apply lookup_union_r. exact Hk.
Qed.

Lemma run_merges_context_witness :
  let node := new (ResolvableDetails "nsfw" Scenario.nodeContext) in
  let message := Scenario.directMessage "!help" in
  preconditions Scenario.registry !! name node = Some Scenario.nsfw /\
  exists merged : gmap string JSValue,
    run Scenario.registry node message Scenario.help (Some Scenario.callerContext)
    = ([PreconditionRun "nsfw" message Scenario.help merged],
       Returned (Value ok)) /\
    merged !! "limit" = Some (VNumber 3) /\
    merged !! "external" = Some (VBool true).
Proof.
  cbv zeta.
  assert (H : preconditions Scenario.registry
                !! name (new (ResolvableDetails "nsfw" Scenario.nodeContext))
              = Some Scenario.nsfw) by reflexivity.
  split; [exact H|].
  destruct (run_merges_context Scenario.registry
              (new (ResolvableDetails "nsfw" Scenario.nodeContext))
              (Scenario.directMessage "!help") Scenario.help
              (Some Scenario.callerContext) Scenario.nsfw H)
    as (merged & E & Hnode & Hcaller).
  exists merged.
  assert (Hlimit : merged !! "limit" = Some (VNumber 3))
    by (apply Hnode; reflexivity).
  assert (Hext : merged !! "external" = Some (VBool true))
    by (rewrite Hcaller; reflexivity).
  split; [|split; assumption].
  rewrite E. cbn [name new]. f_equal.
  cbn [Scenario.nsfw precondition_run]. rewrite Hlimit. reflexivity.
Defined.

End PreconditionContainerSingleProperties.

(* ===================================================================== *)
(** * Properties of listeners                                             *)
(* ===================================================================== *)

Module ListenerProperties.
Import JS Listener.

(** ** The wrappers *)

Lemma _run_unfold (this : Listener) (args : list JSValue) :
  _run this args
  = (CallRun this args ::
       match awaited (run this args) with
       | Fulfilled _ => []
       | Rejected error => [EmitListenerError error this]
       end,
     Fulfilled tt).
Proof.
  unfold _run, try_catch, bind, await, perform, ret.
  destruct (awaited (run this args)); reflexivity.
Qed.

Lemma _runOnce_unfold (unload : Listener -> Settled unit) (this : Listener)
    (args : list JSValue) :
  _runOnce unload this args
  = (trace (_run this args) ++ [StoreUnload this], unload this).
Proof.
  unfold _runOnce. rewrite _run_unfold. reflexivity.
Qed.

Lemma handler_trace (w : World) (l : Listener) (args : list JSValue) :
  trace (handler w l args) = CallRun l args :: continuation l args.
Proof.
  unfold handler, continuation.
  destruct (once l).
  - rewrite _runOnce_unfold, _run_unfold. reflexivity.
  - rewrite _run_unfold. unfold trace. cbn [fst]. rewrite app_nil_r. reflexivity.
Qed.

(** ** Calls inside an emission *)

Lemma invoke_queued_unfold (l : Listener) (args : list JSValue) (w : World) :
  invoke_queued l args w
  = {| subscriptions := subscriptions w;
       pieces := pieces w;
       microtasks := microtasks w ++ continuation l args;
       history := history w ++ [CallRun l args] |}.
Proof. unfold invoke_queued. rewrite handler_trace. reflexivity. Qed.

Lemma queued_deliveries (args : list JSValue) (called : list Subscription)
    (w : World) :
  fold_left (fun w s => invoke_queued (sub_piece s) args w) called w
  = {| subscriptions := subscriptions w;
       pieces := pieces w;
       microtasks :=
         microtasks w ++ flat_map (fun s => continuation (sub_piece s) args) called;
       history :=
         history w ++ List.map (fun s => CallRun (sub_piece s) args) called |}.
Proof.
  revert w. induction called as [|s called IH]; intros w; cbn [fold_left flat_map List.map].
  - rewrite !app_nil_r. destruct w; reflexivity.
  - rewrite IH, invoke_queued_unfold. cbn [subscriptions pieces microtasks history].
    rewrite <- !app_assoc. reflexivity.
Qed.

Lemma deliver_queued_unfold (e : EventEmitter) (ev : string) (args : list JSValue)
    (w : World) :
  deliver invoke_queued e ev args w
  = {| subscriptions :=
         List.filter (fun s => negb (listens e ev s && sub_once s)) (subscriptions w);
       pieces := pieces w;
       microtasks :=
         microtasks w
         ++ flat_map (fun s => continuation (sub_piece s) args)
              (List.filter (listens e ev) (subscriptions w));
       history :=
         history w
         ++ List.map (fun s => CallRun (sub_piece s) args)
              (List.filter (listens e ev) (subscriptions w)) |}.
Proof. unfold deliver. rewrite queued_deliveries. reflexivity. Qed.

(** A call of [#listener] inside an emission: when [run] throws, the report
    is delivered before the call returns, and only the unloading is left
    for later. *)
Lemma invoke_unfold (l : Listener) (args : list JSValue) (w : World) :
  invoke l args w
  = match run l args with
    | Returned _ => invoke_queued l args w
    | Thrown error =>
      let w' := report error l (record (CallRun l args) w) in
      {| subscriptions := subscriptions w';
         pieces := pieces w';
         microtasks := microtasks w' ++ (if once l then [StoreUnload l] else []);
         history := history w' |}
    end.
Proof.
  rewrite invoke_queued_unfold. unfold invoke, immediate.
  rewrite handler_trace. unfold continuation.
  destruct (run l args) as [v|error]; reflexivity.
Qed.

(** With an emission that returns normally the wrappers are those of the
    world. *)
Lemma wrapper_returns (unload : Listener -> Settled unit) (this : Listener)
    (args : list JSValue) :
  Wrapper._run Wrapper.returns this args = _run this args /\
  Wrapper._runOnce Wrapper.returns unload this args = _runOnce unload this args.
Proof.
  assert (H : Wrapper._run Wrapper.returns this args = _run this args).
  { unfold Wrapper._run, _run, try_catch, Wrapper.call, Wrapper.returns, perform.
    destruct (_ <~ _ ;; _)%async as [t [a|error]]; reflexivity. }
  split; [exact H|]. unfold Wrapper._runOnce, _runOnce. rewrite H. reflexivity.
Qed.

Lemma wrapper_run_unfold (emitted : Wrapper.Emission) (this : Listener)
    (args : list JSValue) :
  Wrapper._run emitted this args
  = match awaited (run this args) with
    | Fulfilled _ => ([CallRun this args], Fulfilled tt)
    | Rejected error =>
      ([CallRun this args; EmitListenerError error this],
       match emitted error this with
       | Returned _ => Fulfilled tt
       | Thrown thrown => Rejected thrown
       end)
    end.
Proof.
  unfold Wrapper._run, try_catch, bind, await, ret, Wrapper.call.
  destruct (awaited (run this args)); [reflexivity|].
  destruct (emitted e this) as [[]|thrown]; reflexivity.
Qed.

(** C8 (amended). For every listener and every firing of its wrapped
    handler, the function [#listener] bound by the constructor ([_run], or
    [_runOnce] for a [once] listener): if [run] throws synchronously or
    returns a rejecting promise, the wrapper catches the error and emits a
    listener-error event on the client carrying the error and the listener.
    When that emission returns normally the error is not propagated and the
    invocation settles exactly like a completed one: a persistent listener's
    promise fulfils, a [once] listener goes on to unload itself and settles
    as the unload does.  When the emission itself throws, the wrapper's
    promise rejects with what the emission threw, and a [once] listener does
    not unload itself. *)
Theorem listener_error_is_reported (emitted : Wrapper.Emission)
    (unload : Listener -> Settled unit) (this : Listener)
    (h : list JSValue -> Async Effect unit) (args : list JSValue) :
  Wrapper.bound emitted unload this = Some h ->
  (forall v, awaited (run this args) = Fulfilled v ->
     h args
     = (CallRun this args :: (if once this then [StoreUnload this] else []),
        if once this then unload this else Fulfilled tt)) /\
  (forall error,
     run this args = Thrown error
     \/ run this args = Returned (Promise (Rejected error)) ->
     (emitted error this = Returned tt ->
      h args
      = (CallRun this args :: EmitListenerError error this
           :: (if once this then [StoreUnload this] else []),
         if once this then unload this else Fulfilled tt)) /\
     (forall thrown, emitted error this = Thrown thrown ->
      h args
      = ([CallRun this args; EmitListenerError error this], Rejected thrown))).
Proof.
  intros Hh.
  assert (Eh : h args = if once this
                        then Wrapper._runOnce emitted unload this args
                        else Wrapper._run emitted this args).
  { unfold Wrapper.bound, listener in Hh.
    destruct (emitter this); [|discriminate].
    destruct (truthy (Some (event this))); [|discriminate].
    destruct (once this); injection Hh as <-; reflexivity. }
  rewrite Eh. unfold Wrapper._runOnce. rewrite wrapper_run_unfold. split.
  - intros v ->. destruct (once this); reflexivity.
  - intros error Hfail.
    assert (Hr : awaited (run this args) = Rejected error)
      by (destruct Hfail as [-> | ->]; reflexivity).
    rewrite Hr. split.
    + intros ->. destruct (once this); reflexivity.
    + intros thrown ->. destruct (once this); reflexivity.
Qed.

Lemma listener_error_is_reported_witness :
  let failing := Scenario.failingListener in
  let unload := fun _ : Listener => Fulfilled tt in
  Wrapper.bound Wrapper.returns unload failing
  = Some (Wrapper._run Wrapper.returns failing) /\
  run failing [VString "ready"] = Thrown (Error "boom") /\
  Wrapper.returns (Error "boom") failing = Returned tt /\
  Wrapper._run Wrapper.returns failing [VString "ready"]
  = ([CallRun failing [VString "ready"]; EmitListenerError (Error "boom") failing],
     Fulfilled tt).
Proof.
  cbv zeta. split; [reflexivity|]. split; [reflexivity|]. split; [reflexivity|].
  destruct (listener_error_is_reported Wrapper.returns (fun _ => Fulfilled tt)
              Scenario.failingListener
              (Wrapper._run Wrapper.returns Scenario.failingListener)
              [VString "ready"] eq_refl) as (_ & H).
  destruct (H (Error "boom") (or_introl eq_refl)) as (Hreturns & _).
  exact (Hreturns eq_refl).
Defined.

(** When a subscriber of the listener-error event throws the error it is
    handed, the error of [run] does come out of the wrapper: its promise
    rejects with it, where the promise of a completed invocation fulfils;
    and a [once] listener is not unloaded. *)
Lemma listener_error_is_reported_counterexample :
  let failing := Scenario.failingListener in
  let once_ := Scenario.readyOnce in
  let unload := fun _ : Listener => Fulfilled tt in
  run failing [VString "ready"] = Thrown (Error "boom") /\
  Wrapper.bound Wrapper.rethrows unload failing
  = Some (Wrapper._run Wrapper.rethrows failing) /\
  Wrapper._run Wrapper.rethrows failing [VString "ready"]
  = ([CallRun failing [VString "ready"]; EmitListenerError (Error "boom") failing],
     Rejected (Error "boom")) /\
  outcome (Wrapper._run Wrapper.rethrows failing [VString "ready"]) <> Fulfilled tt /\
  run once_ [] = Returned (Promise (Rejected (Error "late"))) /\
  Wrapper.bound Wrapper.rethrows unload once_
  = Some (Wrapper._runOnce Wrapper.rethrows unload once_) /\
  Wrapper._runOnce Wrapper.rethrows unload once_ []
  = ([CallRun once_ []; EmitListenerError (Error "late") once_],
     Rejected (Error "late")) /\
  ~ In (StoreUnload once_) (trace (Wrapper._runOnce Wrapper.rethrows unload once_ [])).
Proof.
  cbv zeta. repeat split.
  - discriminate.
  - intros [H | [H | []]]; discriminate H.
Qed.

(** ** Lists *)

Lemma filter_comm {A : Type} (p q : A -> bool) (l : list A) :
  List.filter p (List.filter q l) = List.filter q (List.filter p l).
Proof.
  induction l as [|a l IH]; [reflexivity|]. cbn [List.filter].
  destruct (q a) eqn:Q, (p a) eqn:P; cbn [List.filter];
    rewrite ?Q, ?P, IH; reflexivity.
Qed.

Lemma remove_last_filter (p q : Subscription -> bool) (l : list Subscription) :
  (forall s, p s = true -> q s = false) ->
  List.filter q (remove_last p l) = List.filter q l.
Proof.
  intros H. induction l as [|s l IH]; [reflexivity|]. cbn [remove_last].
  destruct (existsb p l).
  - cbn [List.filter]. rewrite IH. reflexivity.
  - destruct (p s) eqn:P; [|reflexivity].
    cbn [List.filter]. rewrite (H s P). reflexivity.
Qed.

Lemma existsb_filter_other (n m : string) (l : list string) :
  existsb (String.eqb n) (List.filter (fun k => negb (String.eqb m k)) l)
  = negb (String.eqb m n) && existsb (String.eqb n) l.
Proof.
  induction l as [|k l IH]; cbn [List.filter existsb].
  - rewrite andb_false_r. reflexivity.
  - destruct (String.eqb_spec m k) as [->|Hmk]; cbn [negb existsb].
    + rewrite IH. destruct (String.eqb_spec n k) as [->|Hnk].
      * rewrite String.eqb_refl. reflexivity.
      * destruct (String.eqb k n); reflexivity.
    + rewrite IH. destruct (String.eqb_spec n k) as [->|Hnk]; [|reflexivity].
      destruct (String.eqb_spec m k); [congruence|]. reflexivity.
Qed.

(** ** What the effects of a call can and cannot do *)

Section OneListener.

Variable n : string.

Lemma calls_of_app (h h' : list Effect) :
  calls_of n (h ++ h') = calls_of n h + calls_of n h'.
Proof. unfold calls_of. rewrite List.filter_app, List.length_app. reflexivity. Qed.

Lemma calls_of_deliveries (args : list JSValue) (called : list Subscription) :
  calls_of n (List.map (fun s => CallRun (sub_piece s) args) called)
  = List.length (List.filter (named n) called).
Proof.
  unfold calls_of. induction called as [|s l IH]; [reflexivity|].
  cbn [List.map List.filter is_call_of].
  change (String.eqb (name (sub_piece s)) n) with (named n s).
  destruct (named n s); cbn [List.length]; rewrite IH; reflexivity.
Qed.

Lemma no_off_in_deliveries (args : list JSValue) (called : list Subscription) :
  List.filter (is_off_of n) (List.map (fun s => CallRun (sub_piece s) args) called) = [].
Proof. induction called as [|s l IH]; [reflexivity | exact IH]. Qed.

Lemma harmless_continuation (l : Listener) (args : list JSValue) :
  forallb (harmless n) (continuation l args) = true.
Proof.
  unfold continuation. rewrite forallb_app. apply andb_true_iff. split.
  - destruct (awaited (run l args)); reflexivity.
  - destruct (once l) eqn:O; [|reflexivity]. cbn [forallb harmless].
    rewrite O, orb_true_r. reflexivity.
Qed.

Lemma harmless_continuations (args : list JSValue) (called : list Subscription) :
  forallb (harmless n)
    (flat_map (fun s => continuation (sub_piece s) args) called) = true.
Proof.
  induction called as [|s l IH]; [reflexivity|]. cbn [flat_map].
  rewrite forallb_app, harmless_continuation, IH. reflexivity.
Qed.



(** Recording an effect counts it if it is a call of the piece's [run]. *)
Lemma record_tracked (subs : list Subscription) (k : nat) (c : Effect) (w : World) :
  tracked n subs k w ->
  tracked n subs (k + (if is_call_of n c then 1 else 0)) (record c w).
Proof.
  intros [Hs Hc Hq].
  constructor; cbn [record subscriptions microtasks history]; try assumption.
  rewrite calls_of_app, Hc. unfold calls_of. cbn [List.filter].
  destruct (is_call_of n c); reflexivity.
Qed.

(** A delivery whose calls leave everything but [run] for later: the
    piece's [run] is called once per subscription that listens, and its
    [once] subscriptions that listen are gone. *)
Lemma deliver_queued_tracked (subs : list Subscription) (k : nat)
    (e : EventEmitter) (ev : string) (args : list JSValue) (w : World) :
  tracked n subs k w ->
  tracked n (List.filter (fun s => negb (listens e ev s && sub_once s)) subs)
    (k + List.length (List.filter (listens e ev) subs))
    (deliver invoke_queued e ev args w).
Proof.
  intros [Hs Hc Hq]. rewrite deliver_queued_unfold.
  constructor; cbn [subscriptions pieces microtasks history].
  - rewrite filter_comm, Hs. reflexivity.
  - rewrite calls_of_app, calls_of_deliveries, filter_comm, Hs, Hc. reflexivity.
  - rewrite forallb_app, Hq, harmless_continuations. reflexivity.
Qed.

(** A call of [#listener] inside an emission: the call itself counts for
    the piece it belongs to, and when [run] throws, the report is delivered
    to the piece's subscriptions on the client's listener-error event. *)
Lemma invoke_tracked (subs : list Subscription) (k : nat) (l' : Listener)
    (args : list JSValue) (w : World) :
  tracked n subs k w ->
  tracked n
    match run l' args with
    | Returned _ => subs
    | Thrown _ =>
      List.filter (fun s => negb (listens client ListenerError s && sub_once s)) subs
    end
    (k + (if String.eqb (name l') n then 1 else 0)
     + match run l' args with
       | Returned _ => 0
       | Thrown _ => List.length (List.filter (listens client ListenerError) subs)
       end)
    (invoke l' args w).
Proof.
  intros H. rewrite invoke_unfold. destruct (run l' args) as [v|error].
  - rewrite Nat.add_0_r, invoke_queued_unfold. destruct H as [Hs Hc Hq].
    constructor; cbn [subscriptions pieces microtasks history].
    + exact Hs.
    + rewrite calls_of_app, Hc. unfold calls_of. cbn [List.filter is_call_of].
      destruct (String.eqb (name l') n); reflexivity.
    + rewrite forallb_app, Hq, harmless_continuation. reflexivity.
  - apply (record_tracked subs k (CallRun l' args)) in H. cbn [is_call_of] in H.
    apply (record_tracked _ _ (EmitListenerError error l')) in H.
    cbn [is_call_of] in H. rewrite Nat.add_0_r in H.
    apply (deliver_queued_tracked _ _ client ListenerError
             [VError error; VPiece (name l') (event l') (path l')]) in H.
    destruct H as [Hs Hc Hq]. cbv zeta.
    constructor; cbn [subscriptions pieces microtasks history].
    + exact Hs.
    + exact Hc.
    + rewrite forallb_app. apply andb_true_iff. split; [exact Hq|].
      destruct (once l') eqn:O; [|reflexivity].
      cbn [forallb harmless]. rewrite O, orb_true_r. reflexivity.
Qed.

Lemma invoke_pieces (l' : Listener) (args : list JSValue) (w : World) :
  pieces (invoke l' args w) = pieces w.
Proof.
  rewrite invoke_unfold. destruct (run l' args) as [v|error].
  - rewrite invoke_queued_unfold. reflexivity.
  - cbv zeta. unfold report. rewrite deliver_queued_unfold. reflexivity.
Qed.

Lemma invoke_microtasks (l' : Listener) (args : list JSValue) (w : World) :
  microtasks (invoke l' args w)
  = microtasks w
    ++ match run l' args with
       | Returned _ => continuation l' args
       | Thrown error =>
         flat_map
           (fun s =>
              continuation (sub_piece s)
                [VError error; VPiece (name l') (event l') (path l')])
           (List.filter (listens client ListenerError) (subscriptions w))
         ++ (if once l' then [StoreUnload l'] else [])
       end.
Proof.
  rewrite invoke_unfold. destruct (run l' args) as [v|error].
  - rewrite invoke_queued_unfold. reflexivity.
  - cbv zeta. unfold report. rewrite deliver_queued_unfold.
    cbn [subscriptions pieces microtasks history record].
    rewrite <- app_assoc. reflexivity.
Qed.

Lemma invoke_history (l' : Listener) (args : list JSValue) (w : World) :
  history (invoke l' args w)
  = history w
    ++ CallRun l' args
       :: match run l' args with
          | Returned _ => []
          | Thrown error =>
            EmitListenerError error l'
            :: List.map
                 (fun s =>
                    CallRun (sub_piece s)
                      [VError error; VPiece (name l') (event l') (path l')])
                 (List.filter (listens client ListenerError) (subscriptions w))
          end.
Proof.
  rewrite invoke_unfold. destruct (run l' args) as [v|error].
  - rewrite invoke_queued_unfold. reflexivity.
  - cbv zeta. unfold report. rewrite deliver_queued_unfold.
    cbn [subscriptions pieces microtasks history record].
    rewrite <- !app_assoc. reflexivity.
Qed.

(** No call inside an emission issues an [off]. *)
Lemma invoke_no_off (l' : Listener) (args : list JSValue) (w : World) :
  List.filter (is_off_of n) (history (invoke l' args w))
  = List.filter (is_off_of n) (history w).
Proof.
  rewrite invoke_history, List.filter_app. cbn [List.filter is_off_of].
  destruct (run l' args) as [v|error]; cbn [List.filter is_off_of];
    rewrite ?no_off_in_deliveries, app_nil_r; reflexivity.
Qed.

(** What is queued stays queued when more is queued behind it. *)
Lemma unload_due_later (q : list Effect) (w w' : World) :
  pieces w' = pieces w -> microtasks w' = microtasks w ++ q ->
  unload_due n w || existsb (is_unload_of n) q = true ->
  unload_due n w' = true.
Proof.
  unfold unload_due. intros -> ->. rewrite existsb_app.
  destruct (existsb (is_unload_of n) (microtasks w)),
    (existsb (is_unload_of n) q),
    (negb (existsb (String.eqb n) (pieces w))); intros H;
    cbn [orb] in H |- *; congruence.
Qed.

Lemma invoke_unload_due (l' : Listener) (args : list JSValue) (w : World) :
  unload_due n w = true -> unload_due n (invoke l' args w) = true.
Proof.
  intros H. eapply unload_due_later;
    [apply invoke_pieces | apply invoke_microtasks | rewrite H; reflexivity].
Qed.

(** The call of a [once] piece queues its unloading. *)
Lemma invoke_unloads (l' : Listener) (args : list JSValue) (w : World) :
  String.eqb (name l') n = true -> once l' = true ->
  unload_due n (invoke l' args w) = true.
Proof.
  intros E O. eapply unload_due_later;
    [apply invoke_pieces | apply invoke_microtasks |].
  apply orb_true_iff. right. unfold continuation. rewrite O.
  destruct (run l' args) as [v|error]; rewrite existsb_app;
    cbn [existsb is_unload_of]; rewrite E; cbn [orb]; apply orb_true_r.
Qed.

(** So does the report of a synchronous throw, for a [once] piece that
    listens to reports. *)
Lemma invoke_report_unloads (l' : Listener) (args : list JSValue) (error : JSError)
    (s : Subscription) (w : World) :
  run l' args = Thrown error ->
  In s (subscriptions w) -> listens client ListenerError s = true ->
  named n s = true -> once (sub_piece s) = true ->
  unload_due n (invoke l' args w) = true.
Proof.
  intros R Hin Hl Hn O. eapply unload_due_later;
    [apply invoke_pieces | apply invoke_microtasks |].
  apply orb_true_iff. right. rewrite R, existsb_app.
  apply orb_true_iff. left. apply existsb_exists.
  exists (StoreUnload (sub_piece s)). split; [|exact Hn].
  apply in_flat_map. exists s. split.
  - apply List.filter_In. split; assumption.
  - unfold continuation. apply in_or_app. right. rewrite O. left. reflexivity.
Qed.

(** The calls of one emission, one after the other. *)
Lemma deliveries_keep (args : list JSValue) (called : list Subscription)
    (w : World) :
  let w' := fold_left (fun w s => invoke (sub_piece s) args w) called w in
  pieces w' = pieces w
  /\ List.filter (is_off_of n) (history w') = List.filter (is_off_of n) (history w)
  /\ (unload_due n w = true -> unload_due n w' = true).
Proof.
  cbv zeta. revert w.
  induction called as [|s called IH]; intros w; cbn [fold_left].
  - repeat split. tauto.
  - destruct (IH (invoke (sub_piece s) args w)) as (Hp & Ho & Hu).
    rewrite Hp, Ho, invoke_pieces, invoke_no_off.
    repeat split. intros H. apply Hu, invoke_unload_due, H.
Qed.

Lemma emit_keeps (e : EventEmitter) (ev : string) (args : list JSValue)
    (w : World) :
  pieces (emit e ev args w) = pieces w
  /\ List.filter (is_off_of n) (history (emit e ev args w))
     = List.filter (is_off_of n) (history w)
  /\ (unload_due n w = true -> unload_due n (emit e ev args w) = true).
Proof.
  unfold emit, deliver.
  exact (deliveries_keep args (List.filter (listens e ev) (subscriptions w))
           {| subscriptions :=
                List.filter (fun s => negb (listens e ev s && sub_once s))
                  (subscriptions w);
              pieces := pieces w;
              microtasks := microtasks w;
              history := history w |}).
Qed.


End OneListener.

(** ** A [once] listener through the steps of the world *)

Section OnceListener.

Variable l : Listener.
Variable e : EventEmitter.
Hypothesis l_once : once l = true.

Let n := name l.

(** Recording an effect that is neither a call of [run] nor an [off] for the
    listener changes nothing for it. *)
Lemma record_once_state (fired : bool) (c : Effect) (w : World) :
  is_call_of n c = false -> is_off_of n c = false ->
  once_state l e fired w -> once_state l e fired (record c w).
Proof.
  intros Hcall Hoff [Hs Hc Hq Ho].
  constructor; cbn [record subscriptions pieces microtasks history];
    try assumption; fold n in Hc, Ho |- *.
  - rewrite calls_of_app. unfold calls_of at 2. cbn [List.filter].
    rewrite Hcall. cbn [List.length]. lia.
  - rewrite List.filter_app. cbn [List.filter]. rewrite Hoff, Ho. reflexivity.
Qed.

(** One call inside an emission.  The listener's own call, which finds
    its subscription taken, fires it and queues its unloading; the call of
    another piece leaves it as it is, unless that call throws and the
    listener, still armed, listens to reports: then the report fires it. *)
Lemma invoke_phase (p : Phase) (l' : Listener) (args : list JSValue) (w : World) :
  tracked n (phase_subscriptions l e p) (phase_calls p) w ->
  (p = Fired -> unload_due n w = true) ->
  (String.eqb (name l') n = true -> p = Taken /\ once l' = true) ->
  exists p',
    tracked n (phase_subscriptions l e p') (phase_calls p') (invoke l' args w)
    /\ (p' = Fired -> unload_due n (invoke l' args w) = true)
    /\ (if String.eqb (name l') n then p' = Fired
        else p' = p \/ (p = Armed /\ p' = Fired)).
Proof.
  intros H Hu Hn.
  pose proof (invoke_tracked n _ _ l' args w H) as H'.
  destruct (String.eqb (name l') n) eqn:E.
  - destruct (Hn eq_refl) as (-> & O). exists Fired.
    split; [|split; [intros _; apply invoke_unloads; assumption | reflexivity]].
    cbn [phase_subscriptions phase_calls List.filter List.length] in H' |- *.
    destruct (run l' args); exact H'.
  - clear Hn. destruct (run l' args) as [v|error] eqn:R.
    + exists p. cbv beta iota in H'. rewrite !Nat.add_0_r in H'.
      split; [exact H'|]. split; [|left; reflexivity].
      intros Hp. apply invoke_unload_due, Hu, Hp.
    + destruct p; cbn [phase_subscriptions phase_calls List.filter List.length] in H'.
      * change (sub_once (subscription_of l e)) with (once l) in H'.
        rewrite l_once, andb_true_r in H'.
        destruct (listens client ListenerError (subscription_of l e)) eqn:L;
          cbn [negb List.length] in H'.
        -- exists Fired. split; [exact H'|]. split; [|right; split; reflexivity].
           intros _.
           apply (invoke_report_unloads n l' args error (subscription_of l e));
             [exact R | | exact L | apply String.eqb_refl | exact l_once].
           eapply proj1. apply (List.filter_In (named n)).
           rewrite (tracked_subscriptions _ _ _ _ H). left. reflexivity.
        -- exists Armed. split; [exact H'|]. split; [discriminate | left; reflexivity].
      * exists Taken. split; [exact H'|]. split; [discriminate | left; reflexivity].
      * exists Fired. split; [exact H'|]. split; [|left; reflexivity].
        intros _. apply invoke_unload_due, Hu. reflexivity.
Qed.

(** The calls of one emission, one after the other: a listener whose
    subscription was taken is fired by its call, and no listener is left
    taken. *)
Lemma deliveries_phase (args : list JSValue) (called : list Subscription) :
  (forall s, In s called -> named n s = true -> once (sub_piece s) = true) ->
  forall (p : Phase) (w : World),
  tracked n (phase_subscriptions l e p) (phase_calls p) w ->
  (p = Fired -> unload_due n w = true) ->
  List.length (List.filter (named n) called)
  = match p with Taken => 1 | Armed | Fired => 0 end ->
  exists p',
    tracked n (phase_subscriptions l e p') (phase_calls p')
      (fold_left (fun w s => invoke (sub_piece s) args w) called w)
    /\ (p' = Fired ->
        unload_due n (fold_left (fun w s => invoke (sub_piece s) args w) called w)
        = true)
    /\ p' <> Taken
    /\ (p <> Armed -> p' = Fired).
Proof.
  induction called as [|s called IH]; intros Honce p w H Hu Hlen; cbn [fold_left].
  - exists p. split; [exact H|]. split; [exact Hu|]. cbn [List.filter List.length] in Hlen.
    destruct p; [| discriminate Hlen |].
    + split; [discriminate|]. intros C. contradiction C. reflexivity.
    + split; [discriminate|]. reflexivity.
  - cbn [List.filter] in Hlen.
    destruct (invoke_phase p (sub_piece s) args w H Hu) as (p1 & H1 & Hu1 & Ht).
    { intros E. change (named n s = true) in E. rewrite E in Hlen.
      cbn [List.length] in Hlen. split.
      - destruct p; try discriminate Hlen; reflexivity.
      - apply Honce; [left; reflexivity | exact E]. }
    change (String.eqb (name (sub_piece s)) n) with (named n s) in Ht.
    destruct (IH (fun s' Hin => Honce s' (or_intror Hin)) p1
                (invoke (sub_piece s) args w) H1 Hu1)
      as (p' & H' & Hu' & Hnt & Hf).
    { destruct (named n s) eqn:E; cbn [List.length] in Hlen.
      - subst p1. destruct p; try discriminate Hlen.
        injection Hlen as Hlen. exact Hlen.
      - destruct Ht as [-> | (-> & ->)]; exact Hlen. }
    exists p'. split; [exact H'|]. split; [exact Hu'|]. split; [exact Hnt|].
    intros Hp. apply Hf. destruct (named n s).
    + subst p1. discriminate.
    + destruct Ht as [-> | (-> & _)]; [exact Hp|]. contradiction Hp. reflexivity.
Qed.

(** An emission leaves an armed listener armed or fires it, fires it if it
    listens to the event, and leaves a fired listener fired; when it fires
    the listener, its unloading is queued. *)
Lemma emit_once_state (fired : bool) (e' : EventEmitter) (ev : string)
    (args : list JSValue) (w : World) :
  once_state l e fired w ->
  (fired = true -> unload_due n w = true) ->
  exists fired',
    once_state l e fired' (emit e' ev args w)
    /\ (fired' = true -> unload_due n (emit e' ev args w) = true)
    /\ (fired = true -> fired' = true)
    /\ (listens e' ev (subscription_of l e) = true -> fired' = true).
Proof.
  intros [Hs Hc Hq Ho] Hu. fold n in Hs, Hc, Hq, Ho.
  destruct (emit_keeps n e' ev args w) as (_ & Hoff & _).
  rewrite Ho in Hoff.
  set (p := if fired then Fired
            else if listens e' ev (subscription_of l e) then Taken else Armed).
  set (w0 := {| subscriptions :=
                  List.filter (fun s => negb (listens e' ev s && sub_once s))
                    (subscriptions w);
                pieces := pieces w;
                microtasks := microtasks w;
                history := history w |}).
  assert (Hcalled :
            List.filter (named n) (List.filter (listens e' ev) (subscriptions w))
            = if fired then []
              else if listens e' ev (subscription_of l e)
                   then [subscription_of l e] else []).
  { rewrite filter_comm, Hs. destruct fired; reflexivity. }
  assert (H0 : tracked n (phase_subscriptions l e p) (phase_calls p) w0).
  { constructor; cbn [w0 subscriptions microtasks history].
    - rewrite filter_comm, Hs. unfold p. destruct fired; [reflexivity|].
      cbn [List.filter].
      change (sub_once (subscription_of l e)) with (once l).
      rewrite l_once, andb_true_r.
      destruct (listens e' ev (subscription_of l e)); reflexivity.
    - rewrite Hc. unfold p. destruct fired; [reflexivity|].
      destruct (listens e' ev (subscription_of l e)); reflexivity.
    - exact Hq. }
  destruct (deliveries_phase args (List.filter (listens e' ev) (subscriptions w)))
    with (p := p) (w := w0) as (p' & H' & Hu' & Hnt & Hf).
  { intros s Hin Hn.
    assert (Hin' : In s (List.filter (named n)
                           (List.filter (listens e' ev) (subscriptions w))))
      by (apply List.filter_In; split; assumption).
    rewrite Hcalled in Hin'. destruct fired; [destruct Hin'|].
    destruct (listens e' ev (subscription_of l e)); [|destruct Hin'].
    destruct Hin' as [<- | []]. exact l_once. }
  { exact H0. }
  { intros Hp. unfold p in Hp. destruct fired; [exact (Hu eq_refl)|].
    destruct (listens e' ev (subscription_of l e)); discriminate Hp. }
  { rewrite Hcalled. unfold p. destruct fired; [reflexivity|].
    destruct (listens e' ev (subscription_of l e)); reflexivity. }
  change (fold_left (fun w s => invoke (sub_piece s) args w)
            (List.filter (listens e' ev) (subscriptions w)) w0)
    with (emit e' ev args w) in H', Hu'.
  destruct H' as [Hs' Hc' Hq'].
  destruct p'; [| contradiction Hnt; reflexivity |].
  - exists false. split; [constructor; assumption|]. split; [discriminate|].
    assert (Hp : p = Armed).
    { destruct p; [reflexivity | |]; discriminate Hf; discriminate. }
    unfold p in Hp. split.
    + intros ->. discriminate Hp.
    + intros L. rewrite L in Hp. destruct fired; discriminate Hp.
  - exists true. split; [constructor; assumption|].
    split; [intros _; apply Hu'; reflexivity|]. split; intros _; reflexivity.
Qed.




Lemma forget_once_state (fired : bool) (l' : Listener) (w : World) :
  once_state l e fired w -> once_state l e fired (forget l' w).
Proof. intros [Hs Hc Hq Ho]. constructor; assumption. Qed.




(** Loading arms the listener. *)
Lemma load_once_state (w : World) :
  emitter l = Some e -> event l <> "" ->
  unaware_of n w ->
  onLoad l = [EmitterOnce e (event l) l] /\ once_state l e false (load l w).
Proof.
  intros He Hev (Hs & Hq & Hc & Ho).
  assert (HonLoad : onLoad l = [EmitterOnce e (event l) l]).
  { unfold onLoad, listener, truthy. rewrite He, l_once.
    destruct (String.eqb_spec (event l) "") as [E|_]; [contradiction|].
    reflexivity. }
  split; [exact HonLoad|]. unfold load. rewrite HonLoad.
  cbn [fold_left emitter_call].
  constructor; cbn [subscribe record subscriptions pieces microtasks history];
    fold n.
  - rewrite List.filter_app, Hs. cbn [List.filter app].
    unfold named at 1. cbn [sub_piece]. fold n. rewrite String.eqb_refl.
    unfold subscription_of. rewrite l_once. reflexivity.
  - rewrite calls_of_app, Hc. reflexivity.
  - exact Hq.
  - rewrite List.filter_app, Ho. reflexivity.
Qed.

End OnceListener.



End ListenerProperties.

(* ===================================================================== *)
(** * Further properties of the message parser                            *)
(* ===================================================================== *)

Module ResolutionFacts.
Import JS CoreMessageParser.

(** ** [run], case by case *)

(** [run] in one equation: ignored messages, the answer of the gate, then
    the three tiers. *)
Lemma run_cases (client : Client) (message : Message) :
  run client message =
    if bot (author message) || truthy (webhookID message) then ([], Fulfilled tt)
    else
      match canRunInChannel client message with
      | (t, Rejected e) => (t, Rejected e)
      | (t, Fulfilled false) => (t, Fulfilled tt)
      | (t, Fulfilled true) =>
        match getMentionPrefix client (content message) with
        | Some tok =>
          if (String.length (content message) =? String.length tok)%nat
          then (t ++ [Emit (MentionPrefixOnly message)], Fulfilled tt)
          else (t ++ [Emit (PrefixedMessage message (StringPrefix tok))], Fulfilled tt)
        | None =>
          match regexPrefix (options client) with
          | Some r =>
            (t ++ [Emit (PrefixedMessage message (PatternPrefix r))], Fulfilled tt)
          | None =>
            match fetchPrefix client message with
            | Rejected e => (t ++ [FetchPrefix message], Rejected e)
            | Fulfilled prefixes =>
              match getPrefix (content message) prefixes with
              | Some p =>
                (t ++ [FetchPrefix message;
                       Emit (PrefixedMessage message (StringPrefix p))],
                 Fulfilled tt)
              | None => (t ++ [FetchPrefix message], Fulfilled tt)
              end
            end
          end
        end
      end.
Proof.
  destruct (bot (author message) || truthy (webhookID message)) eqn:Hign.
  - unfold run. rewrite Hign. reflexivity.
  - apply orb_false_iff in Hign. destruct Hign as (Hbot & Hweb).
    destruct (canRunInChannel client message) as [t [[|]|e]] eqn:Hgate.
    + rewrite (CoreMessageParserProperties.run_past_gates client message t
                 (conj Hbot (conj Hweb Hgate))).
      destruct (getMentionPrefix client (content message)); [reflexivity|].
      unfold laterTiers. destruct (regexPrefix (options client)); [reflexivity|].
      destruct (fetchPrefix client message) as [p|e]; [|reflexivity].
      cbn. destruct (getPrefix (content message) p); reflexivity.
    + unfold run. rewrite Hbot, Hweb, Hgate. cbn. rewrite app_nil_r. reflexivity.
    + unfold run. rewrite Hbot, Hweb, Hgate. reflexivity.
Qed.

(** ** [getPrefix] *)

(** X1. When [getPrefix] answers with a prefix, the content starts with it;
    from a list of candidates it is the first candidate the content starts
    with, every candidate before it failing the test; from a single
    candidate it is that candidate. *)
Theorem getPrefix_first_match (content_ : string) (prefixes : SapphirePrefix)
    (p : string) :
  getPrefix content_ prefixes = Some p ->
  startsWith content_ p = true /\
  match prefixes with
  | PrefixNull => False
  | PrefixString s => p = s
  | PrefixArray l =>
    exists before after,
      l = before ++ p :: after /\
      forall q, In q before -> startsWith content_ q = false
  end.
Proof.
  destruct prefixes as [|s|l]; cbn [getPrefix].
  - discriminate.
  - destruct (startsWith content_ s) eqn:Hs; [|discriminate].
    intros [= <-]. split; [exact Hs | reflexivity].
  - induction l as [|q l IH]; cbn [List.find]; [discriminate|].
    destruct (startsWith content_ q) eqn:Hq.
    + intros [= <-]. split; [exact Hq|]. exists [], l. split; [reflexivity|].
      intros q' [].
    + intros H. destruct (IH H) as (Hp & before & after & -> & Hbefore).
      split; [exact Hp|]. exists (q :: before), after. split; [reflexivity|].
      intros q' [<- | Hin]; [exact Hq | apply Hbefore, Hin].
Qed.

Lemma getPrefix_first_match_witness :
  getPrefix "?help" (PrefixArray ["!"; "?"; "?h"]) = Some "?" /\
  startsWith "?help" "?" = true /\
  exists before after,
    ["!"; "?"; "?h"] = before ++ "?" :: after /\
    forall q, In q before -> startsWith "?help" q = false.
Proof.
  split; [reflexivity|].
  exact (getPrefix_first_match "?help" (PrefixArray ["!"; "?"; "?h"]) "?" eq_refl).
Defined.

(** X2. [getPrefix] answers [null] exactly when there is nothing to match:
    the fetched value is [null], or the single candidate is not a prefix of
    the content, or no candidate of the list is (so always for the empty
    list). *)
Theorem getPrefix_null_iff (content_ : string) (prefixes : SapphirePrefix) :
  getPrefix content_ prefixes = None <->
  match prefixes with
  | PrefixNull => True
  | PrefixString s => startsWith content_ s = false
  | PrefixArray l => forall q, In q l -> startsWith content_ q = false
  end.
Proof.
  destruct prefixes as [|s|l]; cbn [getPrefix].
  - tauto.
  - destruct (startsWith content_ s); split; congruence.
  - split.
    + intros H q Hq. apply (List.find_none _ _ H q Hq).
    + intros H. induction l as [|q l IH]; [reflexivity|]. cbn [List.find].
      rewrite (H q (or_introl eq_refl)). apply IH.
      intros q' Hq'. apply H. right. exact Hq'.
Qed.

(** X3. The empty string is a prefix of every content: when the candidates
    contain it, [getPrefix] always answers with a prefix (the empty one
    unless an earlier candidate matches), and a message that reaches the
    third tier always gets a prefixed-message event. *)
Theorem empty_candidate_always_matches (client : Client) (message : Message)
    (t : list Effect) (l : list string) :
  In "" l ->
  (exists p, getPrefix (content message) (PrefixArray l) = Some p) /\
  getPrefix (content message) (PrefixString "") = Some "" /\
  (passesGates client message t ->
   getMentionPrefix client (content message) = None ->
   regexPrefix (options client) = None ->
   fetchPrefix client message = Fulfilled (PrefixArray l) ->
   exists p,
     run client message
     = (t ++ [FetchPrefix message; Emit (PrefixedMessage message (StringPrefix p))],
        Fulfilled tt)).
Proof.
  intros Hin.
  assert (Hempty : forall c, startsWith c "" = true) by (intros []; reflexivity).
  assert (Hsome : exists p, getPrefix (content message) (PrefixArray l) = Some p).
  { destruct (getPrefix (content message) (PrefixArray l)) as [p|] eqn:E;
      [exists p; reflexivity|].
    apply getPrefix_null_iff in E. specialize (E "" Hin).
    rewrite Hempty in E. discriminate. }
  split; [exact Hsome|]. split.
  - cbn [getPrefix]. rewrite Hempty. reflexivity.
  - intros (Hbot & Hweb & Hgate) Hm Hr Hf. destruct Hsome as (p & Hp).
    exists p. rewrite run_cases, Hbot, Hweb, Hgate, Hm, Hr, Hf, Hp. reflexivity.
Qed.

Lemma empty_candidate_always_matches_witness :
  let client :=
    {| id := Some Scenario.botId;
       options := {| regexPrefix := None |};
       fetchPrefix := fun _ => Fulfilled (PrefixArray ["!"; ""]) |} in
  let message := Scenario.directMessage "good morning" in
  In "" ["!"; ""] /\
  passesGates client message [] /\
  exists p,
    run client message
    = ([FetchPrefix message; Emit (PrefixedMessage message (StringPrefix p))],
       Fulfilled tt).
Proof.
  cbv zeta.
  assert (Hin : In "" ["!"; ""]) by (right; left; reflexivity).
  split; [exact Hin|].
  assert (Hg : passesGates
                 {| id := Some Scenario.botId;
                    options := {| regexPrefix := None |};
                    fetchPrefix := fun _ => Fulfilled (PrefixArray ["!"; ""]) |}
                 (Scenario.directMessage "good morning") [])
    by (repeat split; reflexivity).
  split; [exact Hg|].
  destruct (empty_candidate_always_matches
              {| id := Some Scenario.botId;
                 options := {| regexPrefix := None |};
                 fetchPrefix := fun _ => Fulfilled (PrefixArray ["!"; ""]) |}
              (Scenario.directMessage "good morning") [] ["!"; ""] Hin)
    as (_ & _ & H).
  exact (H Hg eq_refl eq_refl eq_refl).
Defined.

(** ** The gate and the fetch, when they fail *)

(** X4. For a message that is not ignored: when the permission gate answers
    [false], [run] returns without any further effect (no prefix fetch, no
    event); when the gate rejects, [run] rejects with the same error, again
    without further effect. *)
Theorem run_stops_at_gate (client : Client) (message : Message) (t : list Effect) :
  bot (author message) = false -> truthy (webhookID message) = false ->
  (canRunInChannel client message = (t, Fulfilled false) ->
   run client message = (t, Fulfilled tt)) /\
  (forall e, canRunInChannel client message = (t, Rejected e) ->
   run client message = (t, Rejected e)) /\
  (outcome (canRunInChannel client message) <> Fulfilled true ->
   List.filter is_emit (trace (run client message)) = [] /\
   List.filter is_fetchPrefix (trace (run client message)) = []).
Proof.
  intros Hbot Hweb.
  pose proof (run_cases client message) as E. rewrite Hbot, Hweb in E.
  cbn [orb] in E.
  pose proof (CoreMessageParserProperties.canRunInChannel_no_emit client message)
    as Hne.
  pose proof (CoreMessageParserProperties.canRunInChannel_no_fetchPrefix client
                message) as Hnf.
  split; [|split].
  - intros Hg. rewrite Hg in E. exact E.
  - intros e Hg. rewrite Hg in E. exact E.
  - intros Hno. destruct (canRunInChannel client message) as [t' [[|]|e]];
      cbn in Hno; [congruence| |]; rewrite E; split; assumption.
Qed.

Lemma run_stops_at_gate_witness :
  let c := Scenario.guildChannel (Some Scenario.ownMember)
             (fun _ => Rejected Scenario.unknownMember) [VIEW_CHANNEL] in
  let message := Scenario.guildMessage c "!help" in
  bot (author message) = false /\ truthy (webhookID message) = false /\
  canRunInChannel Scenario.plainClient message = ([], Fulfilled false) /\
  run Scenario.plainClient message = ([], Fulfilled tt).
Proof.
  cbv zeta. split; [reflexivity|]. split; [reflexivity|]. split; [reflexivity|].
  destruct (run_stops_at_gate Scenario.plainClient
              (Scenario.guildMessage
                 (Scenario.guildChannel (Some Scenario.ownMember)
                    (fun _ => Rejected Scenario.unknownMember) [VIEW_CHANNEL])
                 "!help") [] eq_refl eq_refl) as (H & _).
  exact (H eq_refl).
Defined.

(** X5. For a message that reaches the third tier (no mention detected, no
    pattern configured): when the prefix fetch fulfils, [run] emits the
    prefixed-message event with the prefix [getPrefix] finds, or no event
    when it finds none; when the fetch rejects, [run] rejects with the
    error of the fetch and emits nothing. *)
Theorem run_dynamic_tier (client : Client) (message : Message) (t : list Effect) :
  passesGates client message t ->
  getMentionPrefix client (content message) = None ->
  regexPrefix (options client) = None ->
  (forall prefixes p, fetchPrefix client message = Fulfilled prefixes ->
     getPrefix (content message) prefixes = Some p ->
     run client message
     = (t ++ [FetchPrefix message; Emit (PrefixedMessage message (StringPrefix p))],
        Fulfilled tt)) /\
  (forall prefixes, fetchPrefix client message = Fulfilled prefixes ->
     getPrefix (content message) prefixes = None ->
     run client message = (t ++ [FetchPrefix message], Fulfilled tt)) /\
  (forall e, fetchPrefix client message = Rejected e ->
     run client message = (t ++ [FetchPrefix message], Rejected e)).
Proof.
  intros (Hbot & Hweb & Hgate) Hm Hr.
  pose proof (run_cases client message) as E.
  rewrite Hbot, Hweb, Hgate, Hm, Hr in E. cbn [orb] in E.
  split; [|split].
  - intros prefixes p Hf Hp. rewrite Hf, Hp in E. exact E.
  - intros prefixes Hf Hp. rewrite Hf, Hp in E. exact E.
  - intros e Hf. rewrite Hf in E. exact E.
Qed.

Lemma run_dynamic_tier_witness :
  let client :=
    {| id := Some Scenario.botId;
       options := {| regexPrefix := None |};
       fetchPrefix := fun _ => Rejected (Error "database down") |} in
  let message := Scenario.directMessage "!help" in
  passesGates client message [] /\
  getMentionPrefix client (content message) = None /\
  regexPrefix (options client) = None /\
  run client message = ([FetchPrefix message], Rejected (Error "database down")).
Proof.
  cbv zeta.
  assert (Hg : passesGates
                 {| id := Some Scenario.botId;
                    options := {| regexPrefix := None |};
                    fetchPrefix := fun _ => Rejected (Error "database down") |}
                 (Scenario.directMessage "!help") [])
    by (repeat split; reflexivity).
  split; [exact Hg|]. split; [reflexivity|]. split; [reflexivity|].
  destruct (run_dynamic_tier
              {| id := Some Scenario.botId;
                 options := {| regexPrefix := None |};
                 fetchPrefix := fun _ => Rejected (Error "database down") |}
              (Scenario.directMessage "!help") [] Hg eq_refl eq_refl)
    as (_ & _ & H).
  exact (H (Error "database down") eq_refl).
Defined.

(** X19. [run] rejects before any event is emitted in two cases only, and
    with the error it was given: the permission gate rejected (the
    membership fetch failed), or the message reached the third tier and the
    prefix fetch rejected.  An ignored message, a denied one, a mention and
    a configured pattern do not make it reject before the emission; a
    rejection after that point could only come from [client.emit] itself,
    which is taken to return normally here. *)
Theorem run_rejects_before_emitting (client : Client) (message : Message)
    (e : JSError) :
  outcome (run client message) = Rejected e /\
  List.filter is_emit (trace (run client message)) = [] <->
  bot (author message) = false /\ truthy (webhookID message) = false /\
  (outcome (canRunInChannel client message) = Rejected e \/
   (outcome (canRunInChannel client message) = Fulfilled true /\
    getMentionPrefix client (content message) = None /\
    regexPrefix (options client) = None /\
    fetchPrefix client message = Rejected e)).
Proof.
  pose proof (CoreMessageParserProperties.canRunInChannel_no_emit client message)
    as Hne.
  rewrite run_cases.
  destruct (bot (author message)); cbn [orb].
  { split; [intros (F & _); discriminate F | intros (F & _); discriminate F]. }
  destruct (truthy (webhookID message)).
  { split; [intros (F & _); discriminate F | intros (_ & F & _); discriminate F]. }
  destruct (canRunInChannel client message) as [t [[|]|e']];
    unfold outcome, trace in Hne |- *; cbn [fst snd] in Hne |- *.
  - destruct (getMentionPrefix client (content message)) as [tok|].
    { destruct (String.length (content message) =? String.length tok)%nat;
        cbn [fst snd]; (split; [intros (F & _); discriminate F|]);
        intros (_ & _ & [F | (_ & F & _)]); discriminate F. }
    destruct (regexPrefix (options client)) as [r|].
    { cbn [fst snd]. split; [intros (F & _); discriminate F|].
      intros (_ & _ & [F | (_ & _ & F & _)]); discriminate F. }
    destruct (fetchPrefix client message) as [prefixes|e''].
    + destruct (getPrefix (content message) prefixes); cbn [fst snd];
        (split; [intros (F & _); discriminate F|]);
        intros (_ & _ & [F | (_ & _ & _ & F)]); discriminate F.
    + cbn [fst snd]. split.
      * intros ([= ->] & _). repeat split. right. repeat split.
      * intros (_ & _ & [F | (_ & _ & _ & [= ->])]); [discriminate F|].
        split; [reflexivity|]. rewrite List.filter_app, Hne. reflexivity.
  - split; [intros (F & _); discriminate F|].
    intros (_ & _ & [F | (F & _)]); discriminate F.
  - split.
    + intros ([= ->] & _). repeat split. left. reflexivity.
    + intros (_ & _ & [[= ->] | (F & _)]); [|discriminate F].
      split; [reflexivity | exact Hne].
Qed.

(** ** What [run] emits *)

Lemma filter_nil_In {A : Type} (p : A -> bool) (l : list A) (a : A) :
  List.filter p l = [] -> In a l -> p a = false.
Proof.
  intros H Hin. destruct (p a) eqn:P; [|reflexivity].
  assert (Hf : In a (List.filter p l)) by (apply List.filter_In; split; assumption).
  rewrite H in Hf. destruct Hf.
Qed.

Lemma getPrefix_sound (content_ : string) (prefixes : SapphirePrefix) (p : string) :
  getPrefix content_ prefixes = Some p -> startsWith content_ p = true.
Proof.
  destruct prefixes as [|s|l]; cbn [getPrefix].
  - discriminate.
  - destruct (startsWith content_ s) eqn:Hs; [|discriminate]. intros [= <-]. exact Hs.
  - intros H. apply List.find_some in H. apply H.
Qed.

(** A detected mention: the identifier is known, the conditions hold, and
    the token is the content up to the close marker. *)
Lemma getMentionPrefix_inv (client : Client) (content_ tok : string) :
  getMentionPrefix client content_ = Some tok ->
  exists i,
    id client = Some i /\ i <> "" /\ isMention i content_ /\
    tok = substr content_ 0 (mentionOffset content_ + String.length i + 1).
Proof.
  intros H. destruct (id client) as [i|] eqn:Hid.
  - destruct (String.eqb_spec i "") as [->|Hne].
    + unfold getMentionPrefix in H. rewrite Hid in H. discriminate.
    + rewrite (CoreMessageParserProperties.getMentionPrefix_known client content_ i
                 Hid Hne) in H.
      destruct (_ && _) eqn:B in H; [|discriminate]. injection H as <-.
      exists i. split; [reflexivity|]. split; [exact Hne|].
      split; [|reflexivity].
      apply CoreMessageParserProperties.isMention_decide. exact B.
  - unfold getMentionPrefix in H. rewrite Hid in H. discriminate.
Qed.

(** X6. Whatever the client and the message, [run] emits at most one event,
    and that event is its last effect; it fetches the dynamic prefixes at
    most once. *)
Theorem run_emits_at_most_once (client : Client) (message : Message) :
  (exists t, List.filter is_emit t = [] /\
     (trace (run client message) = t \/
      exists ev, trace (run client message) = t ++ [Emit ev])) /\
  List.length (List.filter is_emit (trace (run client message))) <= 1 /\
  List.length (List.filter is_fetchPrefix (trace (run client message))) <= 1.
Proof.
  pose proof (CoreMessageParserProperties.canRunInChannel_no_emit client message)
    as Hne.
  pose proof (CoreMessageParserProperties.canRunInChannel_no_fetchPrefix client
                message) as Hnf.
  rewrite run_cases.
  destruct (bot (author message) || truthy (webhookID message)).
  { split; [exists []; split; [reflexivity | left; reflexivity]|].
    split; cbn; lia. }
  destruct (canRunInChannel client message) as [t [[|]|e]];
    unfold trace in Hne, Hnf |- *; cbn [fst] in Hne, Hnf.
  - assert (Hone : forall ev,
              (exists t', List.filter is_emit t' = [] /\
                 (t ++ [Emit ev] = t' \/ exists ev', t ++ [Emit ev] = t' ++ [Emit ev']))
              /\ List.length (List.filter is_emit (t ++ [Emit ev])) <= 1
              /\ List.length (List.filter is_fetchPrefix (t ++ [Emit ev])) <= 1).
    { intros ev. split; [exists t; split; [exact Hne | right; exists ev; reflexivity]|].
      rewrite !List.filter_app, Hne, Hnf. split; cbn; lia. }
    destruct (getMentionPrefix client (content message)) as [tok|].
    { destruct (_ =? _); cbn [fst]; apply Hone. }
    destruct (regexPrefix (options client)) as [r|]; [cbn [fst]; apply Hone|].
    assert (Hfetch : List.filter is_emit (t ++ [FetchPrefix message]) = []).
    { rewrite List.filter_app, Hne. reflexivity. }
    destruct (fetchPrefix client message) as [prefixes|e].
    + destruct (getPrefix (content message) prefixes) as [p|]; cbn [fst].
      * split.
        -- exists (t ++ [FetchPrefix message]). split; [exact Hfetch|]. right.
           exists (PrefixedMessage message (StringPrefix p)).
           rewrite <- app_assoc. reflexivity.
        -- rewrite !List.filter_app, Hne, Hnf. split; cbn; lia.
      * split; [exists (t ++ [FetchPrefix message]); split;
                  [exact Hfetch | left; reflexivity]|].
        rewrite !List.filter_app, Hne, Hnf. split; cbn; lia.
    + cbn [fst].
      split; [exists (t ++ [FetchPrefix message]); split;
                [exact Hfetch | left; reflexivity]|].
      rewrite !List.filter_app, Hne, Hnf. split; cbn; lia.
  - cbn [fst]. split; [exists t; split; [exact Hne | left; reflexivity]|].
    rewrite Hne, Hnf. split; cbn; lia.
  - cbn [fst]. split; [exists t; split; [exact Hne | left; reflexivity]|].
    rewrite Hne, Hnf. split; cbn; lia.
Qed.

(** X7. Every event [run] emits carries the message being handled; a string
    prefix in a prefixed-message event is always a prefix of the message
    content, and a pattern in it is the configured pattern. *)
Theorem run_emits_sound_prefix (client : Client) (message : Message) (ev : Event) :
  In (Emit ev) (trace (run client message)) ->
  match ev with
  | MentionPrefixOnly m => m = message
  | PrefixedMessage m (StringPrefix p) =>
    m = message /\ startsWith (content message) p = true
  | PrefixedMessage m (PatternPrefix r) =>
    m = message /\ regexPrefix (options client) = Some r
  end.
Proof.
  pose proof (CoreMessageParserProperties.canRunInChannel_no_emit client message)
    as Hne.
  rewrite run_cases.
  destruct (bot (author message) || truthy (webhookID message)); [intros []|].
  destruct (canRunInChannel client message) as [t [[|]|e]];
    unfold trace in Hne |- *; cbn [fst] in Hne.
  2,3: cbn [fst]; intros Hin;
       pose proof (filter_nil_In is_emit t (Emit ev) Hne Hin) as F; discriminate F.
  assert (Hlast : forall l, In (Emit ev) (t ++ l) -> In (Emit ev) l).
  { intros l Hin. apply in_app_or in Hin. destruct Hin as [Hin | Hin]; [|exact Hin].
    pose proof (filter_nil_In is_emit t (Emit ev) Hne Hin) as F. discriminate F. }
  destruct (getMentionPrefix client (content message)) as [tok|] eqn:Hm.
  - destruct (getMentionPrefix_inv client (content message) tok Hm)
      as (i & _ & _ & _ & ->).
    destruct (_ =? _); cbn [fst]; intros Hin; apply Hlast in Hin;
      destruct Hin as [[= <-] | []]; [reflexivity|].
    split; [reflexivity|]. apply CoreMessageParserProperties.prefix_substring_0.
  - destruct (regexPrefix (options client)) as [r|].
    + cbn [fst]. intros Hin. apply Hlast in Hin.
      destruct Hin as [[= <-] | []]. split; reflexivity.
    + destruct (fetchPrefix client message) as [prefixes|e].
      * destruct (getPrefix (content message) prefixes) as [p|] eqn:Hp; cbn [fst];
          intros Hin; apply Hlast in Hin.
        -- destruct Hin as [F | [[= <-] | []]]; [discriminate F|].
           split; [reflexivity|]. apply (getPrefix_sound _ _ _ Hp).
        -- destruct Hin as [F | []]. discriminate F.
      * cbn [fst]. intros Hin. apply Hlast in Hin.
        destruct Hin as [F | []]. discriminate F.
Qed.

Lemma run_emits_sound_prefix_witness :
  let message := Scenario.directMessage "?help me" in
  let ev := PrefixedMessage message (StringPrefix "?") in
  In (Emit ev) (trace (run Scenario.plainClient message)) /\
  startsWith (content message) "?" = true.
Proof.
  cbv zeta.
  assert (Hin : In (Emit (PrefixedMessage (Scenario.directMessage "?help me")
                            (StringPrefix "?")))
                  (trace (run Scenario.plainClient (Scenario.directMessage "?help me"))))
    by (right; left; reflexivity).
  split; [exact Hin|].
  exact (proj2 (run_emits_sound_prefix Scenario.plainClient
                  (Scenario.directMessage "?help me") _ Hin)).
Defined.

(** ** Mentions written out *)

Lemma get_append_length (a r : string) (k : nat) :
  String.get (String.length a + k) (a ++ r)%string = String.get k r.
Proof. induction a as [|c a IH]; [reflexivity | exact IH]. Qed.

Lemma substring_0_append (a r : string) (k : nat) :
  String.substring 0 (String.length a + k) (a ++ r)%string
  = (a ++ String.substring 0 k r)%string.
Proof.
  induction a as [|c a IH]; [reflexivity|].
  change (String.substring 0 (S (String.length a + k)) (String c (a ++ r))
          = String c (a ++ String.substring 0 k r))%string.
  cbn [String.substring]. f_equal. exact IH.
Qed.

Lemma substring_0_length (a r : string) :
  String.substring 0 (String.length a) (a ++ r)%string = a.
Proof.
  induction a as [|c a IH]; [destruct r; reflexivity|].
  change (String.substring 0 (S (String.length a)) (String c (a ++ r))
          = String c a)%string.
  cbn [String.substring]. f_equal. exact IH.
Qed.

(** A string made of [i], one more character, and nothing else. *)
Lemma exactly_id_and_close (i s : string) (c : ascii) :
  String.substring 0 (String.length i) s = i ->
  String.get (String.length i) s = Some c ->
  String.length s = String.length i + 1 ->
  s = (i ++ String c "")%string.
Proof.
  revert s. induction i as [|a i IH]; intros s Hsub Hget Hlen; cbn in *.
  - destruct s as [|b [|b' s]]; cbn in *; try discriminate; try lia.
    injection Hget as ->. reflexivity.
  - destruct s as [|b s]; [discriminate|]. cbn in *.
    injection Hsub as -> Hsub.
    change (String a s = String a (i ++ String c ""))%string. f_equal.
    apply IH; [exact Hsub | exact Hget | lia].
Qed.

(** A content that ends with the close marker of a detected mention. *)
Lemma bare_mention_shape (c i : string) :
  isMention i c ->
  String.length c = mentionOffset c + String.length i + 1 ->
  (c = ("<@" ++ i ++ ">")%string \/ c = ("<@!" ++ i ++ ">")%string)
  /\ 16 <= String.length i.
Proof.
  intros (H20 & Hstart & Hclose & Hsub) Hlen.
  unfold startsWith in Hstart. apply String.prefix_correct in Hstart.
  revert Hclose Hsub Hlen. unfold mentionOffset, substr, index_is, at_index.
  destruct c as [|c0 [|c1 c2]]; cbn [String.length String.substring] in Hstart;
    try discriminate.
  injection Hstart as -> ->.
  destruct c2 as [|c3 c4].
  - cbn. intros Hclose. destruct (String.length i); discriminate.
  - cbn [String.get]. destruct (Ascii.eqb_spec c3 "!"%char) as [->|Hplain].
    + cbn [Nat.add String.get String.substring String.length].
      intros Hclose Hsub Hlen.
      assert (E : c4 = (i ++ ">")%string)
        by (apply exactly_id_and_close; [exact Hsub | exact Hclose | lia]).
      subst c4. cbn [String.length] in H20. split; [right; reflexivity | lia].
    + cbn [Nat.add String.get String.substring String.length].
      intros Hclose Hsub Hlen.
      assert (E : String c3 c4 = (i ++ ">")%string)
        by (apply exactly_id_and_close;
            [exact Hsub | exact Hclose | cbn [String.length]; lia]).
      rewrite E. cbn [String.length] in H20. split; [left; reflexivity | lia].
Qed.

(** X8. Writing a mention and detecting it: for a known identifier [i], a
    content made of the nickname form [<@!i>] followed by any text is
    detected with exactly [<@!i>] as token, and so is the plain form [<@i>]
    when [i] does not itself begin with [!], provided the content has at
    least 20 characters. *)
Theorem mention_written_then_detected (client : Client) (i rest : string) :
  id client = Some i -> i <> "" ->
  (20 <= String.length ("<@!" ++ i ++ ">" ++ rest)%string ->
   getMentionPrefix client ("<@!" ++ i ++ ">" ++ rest)%string
   = Some ("<@!" ++ i ++ ">")%string) /\
  (String.get 0 i <> Some "!"%char ->
   20 <= String.length ("<@" ++ i ++ ">" ++ rest)%string ->
   getMentionPrefix client ("<@" ++ i ++ ">" ++ rest)%string
   = Some ("<@" ++ i ++ ">")%string).
Proof.
  intros Hid Hne.
  assert (Hclose : String.get (String.length i) (i ++ ">" ++ rest)%string
                   = Some ">"%char).
  { rewrite <- (Nat.add_0_r (String.length i)), get_append_length. reflexivity. }
  assert (Hself : String.substring 0 (String.length i) (i ++ ">" ++ rest)%string = i)
    by apply substring_0_length.
  assert (Htok : String.substring 0 (String.length i + 1) (i ++ ">" ++ rest)%string
                 = (i ++ ">")%string).
  { rewrite substring_0_append. cbn. destruct rest; reflexivity. }
  set (tail := (i ++ ">" ++ rest)%string) in *.
  split.
  - intros Hlen.
    rewrite (CoreMessageParserProperties.getMentionPrefix_known client _ i Hid Hne).
    apply Nat.leb_le in Hlen. rewrite Hlen.
    change ("<@!" ++ tail)%string with (String "<" (String "@" (String "!" tail))).
    unfold mentionOffset, startsWith, index_is, at_index, substr.
    cbn -[String.append].
    rewrite Hclose, Hself, String.eqb_refl, Htok. reflexivity.
  - intros Hbang Hlen.
    rewrite (CoreMessageParserProperties.getMentionPrefix_known client _ i Hid Hne).
    apply Nat.leb_le in Hlen. rewrite Hlen.
    change ("<@" ++ tail)%string with (String "<" (String "@" tail)).
    assert (Hplain : String.get 0 tail <> Some "!"%char).
    { destruct i as [|a i]; [contradiction|]. exact Hbang. }
    assert (Hp : String.prefix "" tail = true) by (destruct tail; reflexivity).
    unfold mentionOffset, startsWith, index_is, at_index, substr.
    cbn -[String.append].
    destruct (String.get 0 tail) as [d|] eqn:Hd.
    + destruct (Ascii.eqb_spec d "!"%char) as [->|_]; [contradiction|].
      cbn -[String.append].
      rewrite Hclose, Hself, String.eqb_refl, Htok, Hp. reflexivity.
    + cbn -[String.append].
      rewrite Hclose, Hself, String.eqb_refl, Htok, Hp. reflexivity.
Qed.

Lemma mention_written_then_detected_witness :
  id Scenario.plainClient = Some Scenario.botId /\
  Scenario.botId <> "" /\
  20 <= String.length ("<@!" ++ Scenario.botId ++ ">" ++ " ban @someone")%string /\
  getMentionPrefix Scenario.plainClient
    ("<@!" ++ Scenario.botId ++ ">" ++ " ban @someone")%string
  = Some ("<@!" ++ Scenario.botId ++ ">")%string.
Proof.
  assert (Hne : Scenario.botId <> "") by discriminate.
  assert (Hlen : 20 <= String.length
                         ("<@!" ++ Scenario.botId ++ ">" ++ " ban @someone")%string)
    by (vm_compute; lia).
  split; [reflexivity|]. split; [exact Hne|]. split; [exact Hlen|].
  destruct (mention_written_then_detected Scenario.plainClient Scenario.botId
              " ban @someone" eq_refl Hne) as (H & _).
  exact (H Hlen).
Defined.

(** X9. The mention-only event is emitted only for a bare mention: the
    content is then exactly [<@i>] or [<@!i>] for the client's identifier
    [i], and it has at least 20 characters, so that the identifier has at
    least 16.  A client with a shorter identifier never gets the event. *)
Theorem mention_only_means_bare_mention (client : Client) (message m : Message) :
  In (Emit (MentionPrefixOnly m)) (trace (run client message)) ->
  exists i,
    id client = Some i /\
    (content message = ("<@" ++ i ++ ">")%string
     \/ content message = ("<@!" ++ i ++ ">")%string) /\
    20 <= String.length (content message) /\
    16 <= String.length i.
Proof.
  pose proof (CoreMessageParserProperties.canRunInChannel_no_emit client message)
    as Hne.
  rewrite run_cases.
  destruct (bot (author message) || truthy (webhookID message)); [intros []|].
  destruct (canRunInChannel client message) as [t [[|]|e]];
    unfold trace in Hne |- *; cbn [fst] in Hne.
  2,3: cbn [fst]; intros Hin;
       pose proof (filter_nil_In is_emit t _ Hne Hin) as F; discriminate F.
  assert (Hlast : forall l, In (Emit (MentionPrefixOnly m)) (t ++ l) ->
                            In (Emit (MentionPrefixOnly m)) l).
  { intros l Hin. apply in_app_or in Hin. destruct Hin as [Hin | Hin]; [|exact Hin].
    pose proof (filter_nil_In is_emit t _ Hne Hin) as F. discriminate F. }
  destruct (getMentionPrefix client (content message)) as [tok|] eqn:Hm.
  - destruct (Nat.eqb_spec (String.length (content message)) (String.length tok))
      as [Hlen|_]; cbn [fst]; intros Hin; apply Hlast in Hin;
      [clear Hin | destruct Hin as [F | []]; discriminate F].
    destruct (getMentionPrefix_inv client (content message) tok Hm)
      as (i & Hid & _ & HM & ->).
    exists i. split; [exact Hid|].
    pose proof HM as (H20 & _ & Hclose & _).
    pose proof (CoreMessageParserProperties.get_Some_lt _ _ _ Hclose) as Hlt.
    unfold substr in Hlen.
    rewrite CoreMessageParserProperties.length_substring_0 in Hlen by lia.
    destruct (bare_mention_shape (content message) i HM Hlen) as (Hshape & H16).
    split; [exact Hshape|]. split; [exact H20 | exact H16].
  - destruct (regexPrefix (options client)) as [r|].
    + cbn [fst]. intros Hin. apply Hlast in Hin.
      destruct Hin as [F | []]. discriminate F.
    + destruct (fetchPrefix client message) as [prefixes|e].
      * destruct (getPrefix (content message) prefixes) as [p|]; cbn [fst];
          intros Hin; apply Hlast in Hin.
        -- destruct Hin as [F | [F | []]]; discriminate F.
        -- destruct Hin as [F | []]. discriminate F.
      * cbn [fst]. intros Hin. apply Hlast in Hin.
        destruct Hin as [F | []]. discriminate F.
Qed.

Lemma mention_only_means_bare_mention_witness :
  let message := Scenario.directMessage "<@!123456789012345678>" in
  In (Emit (MentionPrefixOnly message)) (trace (run Scenario.plainClient message)) /\
  exists i,
    id Scenario.plainClient = Some i /\
    (content message = ("<@" ++ i ++ ">")%string
     \/ content message = ("<@!" ++ i ++ ">")%string) /\
    20 <= String.length (content message) /\
    16 <= String.length i.
Proof.
  cbv zeta.
  assert (Hin : In (Emit (MentionPrefixOnly
                            (Scenario.directMessage "<@!123456789012345678>")))
                  (trace (run Scenario.plainClient
                            (Scenario.directMessage "<@!123456789012345678>"))))
    by (left; reflexivity).
  split; [exact Hin|].
  exact (mention_only_means_bare_mention Scenario.plainClient _ _ Hin).
Defined.

End ResolutionFacts.

(* ===================================================================== *)
(** * Further properties of the single precondition container             *)
(* ===================================================================== *)

Module ContainerFacts.
Import JS PreconditionContainerSingle.

(** ** Contexts *)

(** X10. A node built from a bare name has an empty context, so the
    precondition receives the caller's context unchanged; and when the
    caller passes no context, the precondition receives the node's stored
    context unchanged. *)
Theorem run_passes_context_through (container : Container)
    (this : PreconditionContainerSingle) (message : Message) (command : Command)
    (precondition : Precondition) :
  preconditions container !! name this = Some precondition ->
  (forall caller : gmap string JSValue,
     run container (new (ResolvableName (name this))) message command (Some caller)
     = ([PreconditionRun (name this) message command caller],
        precondition_run precondition message command caller)) /\
  run container this message command None
  = ([PreconditionRun (name this) message command (context this)],
     precondition_run precondition message command (context this)) /\
  (forall caller : gmap string JSValue,
     context this = ∅ ->
     run container this message command (Some caller)
     = ([PreconditionRun (name this) message command caller],
        precondition_run precondition message command caller)).
Proof.
  intros H.
  assert (Hl : forall c : gmap string JSValue, spread c ∅ = c)
    by (intros c; unfold spread; apply (left_id_L ∅ (∪))).
  assert (Hr : forall c : gmap string JSValue, spread ∅ c = c)
    by (intros c; unfold spread; apply (right_id_L ∅ (∪))).
  split; [|split].
  - intros caller. unfold run. cbn [new name context default]. rewrite H, Hl.
    reflexivity.
  - unfold run. cbn [default]. rewrite H, Hr. reflexivity.
  - intros caller Hempty. unfold run. cbn [default]. rewrite H, Hempty, Hl.
    reflexivity.
Qed.

Lemma run_passes_context_through_witness :
  let node := new (ResolvableName "nsfw") in
  let message := Scenario.directMessage "!help" in
  preconditions Scenario.registry !! name node = Some Scenario.nsfw /\
  run Scenario.registry node message Scenario.help (Some Scenario.callerContext)
  = ([PreconditionRun "nsfw" message Scenario.help Scenario.callerContext],
     precondition_run Scenario.nsfw message Scenario.help Scenario.callerContext).
Proof.
  cbv zeta.
  assert (H : preconditions Scenario.registry !! name (new (ResolvableName "nsfw"))
              = Some Scenario.nsfw) by reflexivity.
  split; [exact H|].
  destruct (run_passes_context_through Scenario.registry
              (new (ResolvableName "nsfw")) (Scenario.directMessage "!help")
              Scenario.help Scenario.nsfw H) as (Hname & _).
  exact (Hname Scenario.callerContext).
Defined.

(** ** The registry is read when the node runs *)

(** X11. A node holds a name only: whatever registry existed when it was
    built, running it against a registry in which the name has just been
    registered invokes that precondition, running it against a registry
    from which the name has just been removed throws, and registering or
    removing any other name changes nothing for it. *)
Theorem run_binds_late (registry : gmap string Precondition)
    (this : PreconditionContainerSingle) (message : Message) (command : Command)
    (context_arg : option (gmap string JSValue)) :
  (forall p,
     run {| preconditions := <[name this := p]> registry |} this message command
       context_arg
     = ([PreconditionRun (name this) message command
           (spread (default ∅ context_arg) (context this))],
        precondition_run p message command
          (spread (default ∅ context_arg) (context this)))) /\
  (exists e,
     run {| preconditions := delete (name this) registry |} this message command
       context_arg
     = ([], Thrown e)) /\
  (forall other p, other <> name this ->
     run {| preconditions := <[other := p]> registry |} this message command
       context_arg
     = run {| preconditions := registry |} this message command context_arg) /\
  (forall other, other <> name this ->
     run {| preconditions := delete other registry |} this message command
       context_arg
     = run {| preconditions := registry |} this message command context_arg).
Proof.
  split; [|split; [|split]].
  - intros p. unfold run. cbn [preconditions]. rewrite lookup_insert_eq. reflexivity.
  - eexists. unfold run. cbn [preconditions]. rewrite lookup_delete_eq. reflexivity.
  - intros other p Hne. unfold run. cbn [preconditions].
    rewrite lookup_insert_ne by exact Hne. reflexivity.
  - intros other Hne. unfold run. cbn [preconditions].
    rewrite lookup_delete_ne by exact Hne. reflexivity.
Qed.

Lemma run_binds_late_witness :
  let node := new (ResolvableName "ownerOnly") in
  let message := Scenario.directMessage "!help" in
  "nsfw" <> name node /\
  run {| preconditions := <["nsfw" := Scenario.nsfw]> ∅ |} node message
    Scenario.help None
  = run {| preconditions := ∅ |} node message Scenario.help None.
Proof.
  cbv zeta.
  assert (Hne : "nsfw" <> name (new (ResolvableName "ownerOnly"))) by discriminate.
  split; [exact Hne|].
  destruct (run_binds_late ∅ (new (ResolvableName "ownerOnly"))
              (Scenario.directMessage "!help") Scenario.help None)
    as (_ & _ & H & _).
  exact (H "nsfw" Scenario.nsfw Hne).
Defined.

(** ** The error names the node *)

Lemma string_length_append (a b : string) :
  String.length (a ++ b)%string = String.length a + String.length b.
Proof.
  induction a as [|c a IH]; [reflexivity|].
  change (S (String.length (a ++ b)%string) = S (String.length a + String.length b)).
  f_equal. exact IH.
Qed.

Lemma string_append_inv_tail (x y s : string) :
  (x ++ s)%string = (y ++ s)%string -> x = y.
Proof.
  revert y. induction x as [|c x IH]; intros [|d y] H.
  - reflexivity.
  - apply (f_equal String.length) in H.
    change (String.length s = S (String.length (y ++ s)%string)) in H.
    rewrite string_length_append in H. lia.
  - apply (f_equal String.length) in H.
    change (S (String.length (x ++ s)%string) = String.length s) in H.
    rewrite string_length_append in H. lia.
  - change (String c (x ++ s) = String d (y ++ s))%string in H.
    injection H as -> H. f_equal. apply IH, H.
Qed.

(** X12. The error thrown for an unregistered name identifies the node: two
    nodes whose names are both absent from the registry throw the same
    error only if they have the same name. *)
Theorem unavailable_error_names_node (container : Container)
    (a b : PreconditionContainerSingle) (message : Message) (command : Command)
    (context_a context_b : option (gmap string JSValue)) :
  preconditions container !! name a = None ->
  preconditions container !! name b = None ->
  snd (run container a message command context_a)
  = snd (run container b message command context_b) ->
  name a = name b.
Proof.
  intros Ha Hb. unfold run. rewrite Ha, Hb. cbn [snd]. intros [= H].
  change ((name a ++ dquote ++ " is not available.")
          = (name b ++ dquote ++ " is not available."))%string in H.
  apply string_append_inv_tail in H. exact H.
Qed.

Lemma unavailable_error_names_node_witness :
  let a := new (ResolvableName "ownerOnly") in
  let b := new (ResolvableDetails "ownerOnly" Scenario.nodeContext) in
  let message := Scenario.directMessage "!help" in
  preconditions Scenario.registry !! name a = None /\
  preconditions Scenario.registry !! name b = None /\
  snd (run Scenario.registry a message Scenario.help None)
  = snd (run Scenario.registry b message Scenario.help (Some Scenario.callerContext)) /\
  name a = name b.
Proof.
  cbv zeta. split; [reflexivity|]. split; [reflexivity|]. split; [reflexivity|].
  exact (unavailable_error_names_node Scenario.registry
           (new (ResolvableName "ownerOnly"))
           (new (ResolvableDetails "ownerOnly" Scenario.nodeContext))
           (Scenario.directMessage "!help") Scenario.help None
           (Some Scenario.callerContext) eq_refl eq_refl eq_refl).
Defined.

End ContainerFacts.

(* ===================================================================== *)
(** * Further properties of listeners                                     *)
(* ===================================================================== *)

Module LifecycleFacts.
Import JS Listener.

(** ** The error log *)

Lemma quote_free_split (a a' r r' : string) :
  CoreListenerError.quote_free a = true ->
  CoreListenerError.quote_free a' = true ->
  (a ++ String (Ascii.ascii_of_nat 34) r)%string
  = (a' ++ String (Ascii.ascii_of_nat 34) r')%string ->
  a = a' /\ r = r'.
Proof.
  revert a'. induction a as [|c a IH]; intros [|c' a'] Ha Ha' H.
  - change (String (Ascii.ascii_of_nat 34) r = String (Ascii.ascii_of_nat 34) r') in H.
    injection H as H. split; [reflexivity | exact H].
  - change (String (Ascii.ascii_of_nat 34) r
            = String c' (a' ++ String (Ascii.ascii_of_nat 34) r'))%string in H.
    injection H as Hc _. cbn [CoreListenerError.quote_free] in Ha'.
    rewrite <- Hc in Ha'. discriminate Ha'.
  - change (String c (a ++ String (Ascii.ascii_of_nat 34) r)
            = String (Ascii.ascii_of_nat 34) r')%string in H.
    injection H as Hc _. cbn [CoreListenerError.quote_free] in Ha.
    rewrite Hc in Ha. discriminate Ha.
  - change (String c (a ++ String (Ascii.ascii_of_nat 34) r)
            = String c' (a' ++ String (Ascii.ascii_of_nat 34) r'))%string in H.
    injection H as -> H. cbn [CoreListenerError.quote_free] in Ha, Ha'.
    apply andb_true_iff in Ha, Ha'. destruct Ha as (_ & Ha), Ha' as (_ & Ha').
    destruct (IH a' Ha Ha' H) as (-> & ->). split; reflexivity.
Qed.

(** X18. The core error listener logs one line, with the error it was
    given.  When the names and events of two failing listeners contain no
    double quote, equal log calls mean the same error and the same name,
    event and path: the line identifies the listener. *)
Theorem error_log_identifies_listener (error error' : JSError)
    (context context' : CoreListenerError.ListenerErrorPayload) :
  let l := CoreListenerError.piece context in
  let l' := CoreListenerError.piece context' in
  CoreListenerError.quote_free (name l) = true ->
  CoreListenerError.quote_free (event l) = true ->
  CoreListenerError.quote_free (name l') = true ->
  CoreListenerError.quote_free (event l') = true ->
  CoreListenerError.run error context = CoreListenerError.run error' context' ->
  error = error' /\ name l = name l' /\ event l = event l' /\ path l = path l'.
Proof.
  intros l l' Hn He Hn' He'. unfold CoreListenerError.run. fold l l'.
  intros [= H ->]. split; [reflexivity|].
  change ((name l ++ String (Ascii.ascii_of_nat 34)
             (" for event " ++ dquote ++ event l ++ dquote
              ++ " at path " ++ dquote ++ path l ++ dquote))
          = (name l' ++ String (Ascii.ascii_of_nat 34)
               (" for event " ++ dquote ++ event l' ++ dquote
                ++ " at path " ++ dquote ++ path l' ++ dquote)))%string in H.
  apply quote_free_split in H; [|assumption..]. destruct H as (Hname & H).
  split; [exact Hname|].
  injection H as H.
  change ((event l ++ String (Ascii.ascii_of_nat 34)
             (" at path " ++ dquote ++ path l ++ dquote))
          = (event l' ++ String (Ascii.ascii_of_nat 34)
               (" at path " ++ dquote ++ path l' ++ dquote)))%string in H.
  apply quote_free_split in H; [|assumption..]. destruct H as (Hevent & H).
  split; [exact Hevent|].
  injection H as H.
  change ((path l ++ dquote) = (path l' ++ dquote))%string in H.
  apply ContainerFacts.string_append_inv_tail in H. exact H.
Qed.

Lemma error_log_identifies_listener_witness :
  let context := {| CoreListenerError.piece := Scenario.failingListener |} in
  CoreListenerError.quote_free (name Scenario.failingListener) = true /\
  CoreListenerError.quote_free (event Scenario.failingListener) = true /\
  CoreListenerError.run (Error "boom") context
  = CoreListenerError.run (Error "boom") context /\
  path (CoreListenerError.piece context) = path Scenario.failingListener.
Proof.
  cbv zeta. split; [reflexivity|]. split; [reflexivity|]. split; [reflexivity|].
  exact (proj2 (proj2 (proj2
    (error_log_identifies_listener (Error "boom") (Error "boom")
       {| CoreListenerError.piece := Scenario.failingListener |}
       {| CoreListenerError.piece := Scenario.failingListener |}
       eq_refl eq_refl eq_refl eq_refl eq_refl)))).
Defined.

(** ** Loading and unloading *)

(** X13. A listener subscribes on load exactly when it has an emitter and a
    non-empty event name, and then with one call: [once] for a [once]
    listener, [on] otherwise; it unsubscribes on unload exactly when it
    subscribed with [on].  A listener without emitter or with an empty
    event name is inert: neither call is ever issued. *)
Theorem lifecycle_calls (l : Listener) :
  (emitter l = None \/ event l = "" -> onLoad l = [] /\ onUnload l = []) /\
  (forall e, emitter l = Some e -> event l <> "" ->
     onLoad l = [if once l then EmitterOnce e (event l) l
                 else EmitterOn e (event l) l] /\
     onUnload l = if once l then [] else [EmitterOff e (event l) l]) /\
  (onLoad l = [] <-> emitter l = None \/ event l = "").
Proof.
  assert (Hinert : emitter l = None \/ event l = "" ->
                   onLoad l = [] /\ onUnload l = []).
  { unfold onLoad, onUnload, listener, truthy. intros [-> | ->].
    - split; reflexivity.
    - destruct (emitter l); split; reflexivity. }
  assert (Hlive : forall e, emitter l = Some e -> event l <> "" ->
            onLoad l = [if once l then EmitterOnce e (event l) l
                        else EmitterOn e (event l) l] /\
            onUnload l = if once l then [] else [EmitterOff e (event l) l]).
  { intros e He Hev. unfold onLoad, onUnload, listener, truthy. rewrite He.
    destruct (String.eqb_spec (event l) "") as [E|_]; [contradiction|].
    destruct (once l); split; reflexivity. }
  split; [exact Hinert|]. split; [exact Hlive|]. split.
  - intros Hnil. destruct (emitter l) as [e|] eqn:He; [|left; reflexivity].
    destruct (String.eqb_spec (event l) "") as [E|Hev]; [right; exact E|].
    destruct (Hlive e eq_refl Hev) as (Hload & _). rewrite Hload in Hnil.
    discriminate Hnil.
  - intros H. apply Hinert, H.
Qed.

Lemma lifecycle_calls_witness :
  let l := new (fun _ => None) (fun _ => Returned (Value VUndefined))
             {| context_name := "shardReady"; context_path := "/listeners/shard.js" |}
             {| options_name := None;
                options_emitter := Some (EmitterKey "gateway");
                options_event := None;
                options_once := None |} in
  (emitter l = None \/ event l = "") /\ onLoad l = [] /\ onUnload l = [].
Proof.
  cbv zeta.
  assert (H : emitter (new (fun _ => None) (fun _ => Returned (Value VUndefined))
                         {| context_name := "shardReady";
                            context_path := "/listeners/shard.js" |}
                         {| options_name := None;
                            options_emitter := Some (EmitterKey "gateway");
                            options_event := None;
                            options_once := None |}) = None
              \/ event (new (fun _ => None) (fun _ => Returned (Value VUndefined))
                          {| context_name := "shardReady";
                             context_path := "/listeners/shard.js" |}
                          {| options_name := None;
                             options_emitter := Some (EmitterKey "gateway");
                             options_event := None;
                             options_once := None |}) = "")
    by (left; reflexivity).
  split; [exact H|].
  exact (proj1 (lifecycle_calls _) H).
Defined.

Lemma remove_last_snoc (p : Subscription -> bool) (subs : list Subscription)
    (s : Subscription) :
  p s = true -> remove_last p (subs ++ [s]) = subs.
Proof.
  intros Hp. induction subs as [|s' subs IH]; cbn [app remove_last existsb].
  - rewrite Hp. reflexivity.
  - rewrite existsb_app. cbn [existsb]. rewrite Hp. cbn [orb].
    rewrite orb_true_r, IH. reflexivity.
Qed.

Lemma forget_snoc (n : string) (names : list string) :
  existsb (String.eqb n) names = false ->
  List.filter (fun k => negb (String.eqb n k)) (names ++ [n]) = names.
Proof.
  intros H. rewrite List.filter_app. cbn [List.filter].
  rewrite String.eqb_refl. cbn [negb]. rewrite app_nil_r.
  induction names as [|k names IH]; [reflexivity|]. cbn [existsb] in H.
  apply orb_false_iff in H. destruct H as (Hk & H).
  cbn [List.filter]. rewrite Hk. cbn [negb]. rewrite (IH H). reflexivity.
Qed.

(** X14. Loading a persistent listener and then unloading it leaves the
    world as it was: the subscription that [onLoad] made with [on] is the
    one [onUnload] removes with [off], the store forgets the piece, and
    nothing is left in the queue; what remains is the record of the three
    calls. *)
Theorem load_then_unload_restores (l : Listener) (e : EventEmitter) (w : World) :
  once l = false -> emitter l = Some e -> event l <> "" ->
  existsb (String.eqb (name l)) (pieces w) = false ->
  let w' := perform_effect (StoreUnload l) (load l w) in
  subscriptions w' = subscriptions w /\
  pieces w' = pieces w /\
  microtasks w' = microtasks w /\
  history w'
  = history w ++ [EmitterOn e (event l) l; StoreUnload l; EmitterOff e (event l) l].
Proof.
  intros Hp He Hev Hfresh.
  assert (Hload : onLoad l = [EmitterOn e (event l) l]).
  { unfold onLoad, listener, truthy. rewrite He, Hp.
    destruct (String.eqb_spec (event l) "") as [E|_]; [contradiction | reflexivity]. }
  assert (Hunload : onUnload l = [EmitterOff e (event l) l]).
  { unfold onUnload, listener, truthy. rewrite He, Hp.
    destruct (String.eqb_spec (event l) "") as [E|_]; [contradiction | reflexivity]. }
  cbv zeta. unfold load. rewrite Hload.
  cbn [fold_left emitter_call subscribe record perform_effect
       subscriptions pieces microtasks history].
  rewrite Hunload.
  cbn [fold_left emitter_call record forget subscriptions pieces microtasks history].
  split; [|split; [|split]].
  - apply remove_last_snoc. unfold subscribed, listens, same_piece.
    cbn [sub_emitter sub_event sub_piece]. rewrite !String.eqb_refl. reflexivity.
  - apply forget_snoc, Hfresh.
  - reflexivity.
  - rewrite <- !app_assoc. reflexivity.
Qed.

Lemma load_then_unload_restores_witness :
  let l := Scenario.failingListener in
  let w := perform_effect (StoreUnload l) (load l empty_world) in
  once l = false /\ emitter l = Some client /\ event l <> "" /\
  existsb (String.eqb (name l)) (pieces empty_world) = false /\
  subscriptions w = [] /\ pieces w = [] /\ microtasks w = [].
Proof.
  cbv zeta.
  assert (Hev : event Scenario.failingListener <> "") by discriminate.
  split; [reflexivity|]. split; [reflexivity|]. split; [exact Hev|].
  split; [reflexivity|].
  destruct (load_then_unload_restores Scenario.failingListener client empty_world
              eq_refl eq_refl Hev eq_refl) as (Hs & Hn & Hq & _).
  split; [exact Hs|]. split; [exact Hn | exact Hq].
Defined.

(** X15. Unloading a [once] listener that has not fired yet does not
    unsubscribe it: the store forgets the piece and no [off] is issued, so
    the subscription made by [onLoad] stays, and the next emission of its
    event still calls [run]. *)
Theorem unloaded_once_listener_still_fires (l : Listener) (e : EventEmitter)
    (w0 : World) (args : list JSValue) :
  once l = true -> emitter l = Some e -> event l <> "" ->
  unaware_of (name l) w0 ->
  let w1 := perform_effect (StoreUnload l) (load l w0) in
  existsb (String.eqb (name l)) (pieces w1) = false /\
  List.filter (is_off_of (name l)) (history w1) = [] /\
  List.filter (named (name l)) (subscriptions w1) = [subscription_of l e] /\
  calls_of (name l) (history (emit e (event l) args w1)) = 1.
Proof.
  intros Honce He Hev Hw0.
  destruct (ListenerProperties.load_once_state l e Honce w0 He Hev Hw0)
    as (_ & Harmed).
  assert (Hunload : onUnload l = []).
  { unfold onUnload. rewrite Honce. destruct (listener l), (emitter l); reflexivity. }
  cbv zeta. cbn [perform_effect]. rewrite Hunload. cbn [fold_left].
  assert (H1 : once_state l e false
                 (forget l (record (StoreUnload l) (load l w0)))).
  { apply ListenerProperties.forget_once_state.
    apply ListenerProperties.record_once_state;
      [reflexivity | reflexivity | exact Harmed]. }
  split.
  { cbn [forget pieces record].
    rewrite ListenerProperties.existsb_filter_other, String.eqb_refl. reflexivity. }
  split; [apply (once_no_off _ _ _ _ H1)|].
  split; [apply (once_subscriptions _ _ _ _ H1)|].
  assert (Hl : listens e (event l) (subscription_of l e) = true).
  { unfold listens. cbn [subscription_of sub_emitter sub_event].
    rewrite !String.eqb_refl. reflexivity. }
  destruct (ListenerProperties.emit_once_state l e Honce false e (event l) args _ H1)
    as (fired' & H2 & _ & _ & Hfired); [discriminate|].
  rewrite (Hfired Hl) in H2. apply (once_calls _ _ _ _ H2).
Qed.

Lemma unloaded_once_listener_still_fires_witness :
  let l := Scenario.readyOnce in
  let w1 := perform_effect (StoreUnload l) (load l empty_world) in
  once l = true /\ emitter l = Some client /\ event l <> "" /\
  unaware_of (name l) empty_world /\
  pieces w1 = [] /\
  calls_of (name l) (history (emit client (event l) [] w1)) = 1.
Proof.
  cbv zeta.
  assert (Hev : event Scenario.readyOnce <> "") by discriminate.
  assert (Hw0 : unaware_of (name Scenario.readyOnce) empty_world)
    by (repeat split; reflexivity).
  split; [reflexivity|]. split; [reflexivity|]. split; [exact Hev|].
  split; [exact Hw0|]. split; [reflexivity|].
  destruct (unloaded_once_listener_still_fires Scenario.readyOnce client
              empty_world [] eq_refl eq_refl Hev Hw0) as (_ & _ & _ & H).
  exact H.
Defined.

(** ** The promise of the [once] wrapper *)



(** ** A persistent listener through the steps of the world *)

Section Persistent.
Import PersistentListener.

Variable l : Listener.
Variable e : EventEmitter.
Hypothesis l_persistent : once l = false.

Let n := name l.

Lemma record_persistent (k : nat) (c : Effect) (w : World) :
  is_call_of n c = false ->
  persistent_state l e k w -> persistent_state l e k (record c w).
Proof.
  intros Hcall [Hs Hc Hq].
  constructor; cbn [record subscriptions pieces microtasks history];
    try assumption; fold n in Hc |- *.
  rewrite ListenerProperties.calls_of_app. unfold calls_of at 2.
  cbn [List.filter]. rewrite Hcall. cbn [List.length]. lia.
Qed.

(** The calls of one emission, one after the other: each call of the
    listener counts, and so does each report of a synchronous throw, if the
    listener listens to reports. *)
Lemma deliveries_persistent (args : list JSValue) (called : list Subscription) :
  forall (k : nat) (w : World),
  tracked n [subscription_of l e] k w ->
  exists k',
    tracked n [subscription_of l e] k'
      (fold_left (fun w s => invoke (sub_piece s) args w) called w)
    /\ k + List.length (List.filter (named n) called) <= k'
    /\ (heard l e client ListenerError = 0 ->
        k' = k + List.length (List.filter (named n) called)).
Proof.
  induction called as [|s called IH]; intros k w H; cbn [fold_left List.filter].
  - exists k. cbn [List.length]. split; [exact H|]. split; [lia|]. intros _. lia.
  - pose proof (ListenerProperties.invoke_tracked n _ _ (sub_piece s) args w H) as H1.
    cbn [List.filter List.length] in H1.
    change (sub_once (subscription_of l e)) with (once l) in H1.
    rewrite l_persistent, andb_false_r in H1. cbn [negb] in H1.
    change (String.eqb (name (sub_piece s)) n) with (named n s) in H1.
    assert (H1' : tracked n [subscription_of l e]
                    (k + (if named n s then 1 else 0)
                     + match run (sub_piece s) args with
                       | Returned _ => 0
                       | Thrown _ => heard l e client ListenerError
                       end)
                    (invoke (sub_piece s) args w)).
    { unfold heard.
      destruct (run (sub_piece s) args); [exact H1|].
      destruct (listens client ListenerError (subscription_of l e)); exact H1. }
    destruct (IH _ _ H1') as (k' & H' & Hle & Heq).
    exists k'. split; [exact H'|].
    destruct (named n s); cbn [List.length]; split; try lia;
      intros Hq; specialize (Heq Hq); rewrite Hq in Heq;
      destruct (run (sub_piece s) args); lia.
Qed.

Lemma emit_persistent (k : nat) (e' : EventEmitter) (ev : string)
    (args : list JSValue) (w : World) :
  persistent_state l e k w ->
  exists k',
    persistent_state l e k' (emit e' ev args w)
    /\ k + heard l e e' ev <= k'
    /\ (heard l e client ListenerError = 0 -> k' = k + heard l e e' ev).
Proof.
  intros [Hs Hc Hq]. fold n in Hs, Hc, Hq.
  set (w0 := {| subscriptions :=
                  List.filter (fun s => negb (listens e' ev s && sub_once s))
                    (subscriptions w);
                pieces := pieces w;
                microtasks := microtasks w;
                history := history w |}).
  assert (H0 : tracked n [subscription_of l e] k w0).
  { constructor; cbn [w0 subscriptions microtasks history]; try assumption.
    rewrite ListenerProperties.filter_comm, Hs. cbn [List.filter].
    change (sub_once (subscription_of l e)) with (once l).
    rewrite l_persistent, andb_false_r. reflexivity. }
  destruct (deliveries_persistent args
              (List.filter (listens e' ev) (subscriptions w)) k w0 H0)
    as (k' & [Hs' Hc' Hq'] & Hle & Heq).
  change (fold_left (fun w s => invoke (sub_piece s) args w)
            (List.filter (listens e' ev) (subscriptions w)) w0)
    with (emit e' ev args w) in Hs', Hc', Hq'.
  assert (Hheard : List.length
                     (List.filter (named n)
                        (List.filter (listens e' ev) (subscriptions w)))
                   = heard l e e' ev).
  { rewrite ListenerProperties.filter_comm, Hs. unfold heard. cbn [List.filter].
    destruct (listens e' ev (subscription_of l e)); reflexivity. }
  rewrite Hheard in Hle, Heq.
  exists k'. split; [constructor; assumption|]. split; assumption.
Qed.

Lemma off_persistent (k : nat) (e' : EventEmitter) (ev : string) (l' : Listener)
    (w : World) :
  String.eqb (name l') n = false ->
  persistent_state l e k w ->
  persistent_state l e k (emitter_call (EmitterOff e' ev l') w).
Proof.
  intros Hne H.
  apply (record_persistent k (EmitterOff e' ev l')) in H; [|reflexivity].
  destruct H as [Hs Hc Hq]. unfold emitter_call.
  constructor; cbn [subscriptions pieces microtasks history]; try assumption.
  rewrite ListenerProperties.remove_last_filter; [exact Hs|].
  intros s Hsub. unfold subscribed, same_piece in Hsub.
  apply andb_true_iff in Hsub. destruct Hsub as (_ & Hsame).
  apply String.eqb_eq in Hsame. unfold named. rewrite Hsame. exact Hne.
Qed.

Lemma subscribe_persistent (k : nat) (s : Subscription) (w : World) :
  named n s = false ->
  persistent_state l e k w -> persistent_state l e k (subscribe s w).
Proof.
  intros Hne [Hs Hc Hq].
  constructor; cbn [subscribe subscriptions pieces microtasks history];
    try assumption.
  fold n. rewrite List.filter_app. cbn [List.filter]. rewrite Hne, app_nil_r.
  exact Hs.
Qed.

Lemma perform_persistent (k : nat) (c : Effect) (w : World) :
  harmless n c = true ->
  persistent_state l e k w ->
  exists k',
    persistent_state l e k' (perform_effect c w) /\ k <= k' /\
    (heard l e client ListenerError = 0 -> k' = k).
Proof.
  intros Hh H.
  assert (Hsame : persistent_state l e k (perform_effect c w) ->
            exists k',
              persistent_state l e k' (perform_effect c w) /\ k <= k' /\
              (heard l e client ListenerError = 0 -> k' = k)).
  { intros H'. exists k. split; [exact H'|]. split; [lia | reflexivity]. }
  destruct c as [l' a | err l' | l' | e' ev l' | e' ev l' | e' ev l'];
    cbn [harmless] in Hh.
  - apply Hsame. cbn [perform_effect]. apply negb_true_iff in Hh.
    apply record_persistent; assumption.
  - clear Hsame. cbn [perform_effect].
    apply (record_persistent k (EmitListenerError err l')) in H; [|reflexivity].
    destruct (emit_persistent k client ListenerError
                [VError err; VPiece (name l') (event l') (path l')] _ H)
      as (k' & H' & Hle & Heq).
    exists k'. split; [exact H'|]. split; [lia|].
    intros Hq. specialize (Heq Hq). lia.
  - apply Hsame. cbn [perform_effect].
    apply (record_persistent k (StoreUnload l')) in H; [|reflexivity].
    assert (H' : persistent_state l e k
                   (fold_left (fun w c => emitter_call c w) (onUnload l')
                      (record (StoreUnload l') w))).
    { unfold onUnload. destruct (listener l'); [|exact H].
      destruct (emitter l') as [e'|]; [|exact H].
      destruct (once l') eqn:O; cbn [negb fold_left]; [exact H|].
      apply off_persistent; [|exact H].
      rewrite orb_false_r in Hh. apply negb_true_iff in Hh. exact Hh. }
    destruct H' as [Hs Hc Hq]. constructor; assumption.
  - apply Hsame. cbn [perform_effect].
    apply negb_true_iff in Hh. unfold emitter_call.
    apply subscribe_persistent; [exact Hh|].
    apply record_persistent; [reflexivity | exact H].
  - apply Hsame. cbn [perform_effect].
    apply negb_true_iff in Hh. unfold emitter_call.
    apply subscribe_persistent; [exact Hh|].
    apply record_persistent; [reflexivity | exact H].
  - apply Hsame. cbn [perform_effect].
    apply negb_true_iff in Hh. apply off_persistent; assumption.
Qed.

Lemma step_persistent (k : nat) (s : Stimulus) (w : World) :
  persistent_state l e k w ->
  exists k',
    persistent_state l e k' (step w s)
    /\ k + (if is_emits e (event l) s then 1 else 0) <= k'
    /\ (heard l e client ListenerError = 0 ->
        k' = k + (if is_emits e (event l) s then 1 else 0)).
Proof.
  intros H. destruct s as [e' ev args|]; cbn [step is_emits].
  - destruct (emit_persistent k e' ev args w H) as (k' & H' & Hle & Heq).
    assert (E : heard l e e' ev
                = if String.eqb e' e && String.eqb ev (event l) then 1 else 0).
    { unfold heard, listens. cbn [subscription_of sub_emitter sub_event].
      rewrite (String.eqb_sym e e'), (String.eqb_sym (event l) ev). reflexivity. }
    rewrite E in Hle, Heq. exists k'. split; [exact H'|]. split; assumption.
  - rewrite Nat.add_0_r. destruct (microtasks w) as [|c rest] eqn:Hq.
    + exists k. split; [exact H|]. split; [lia | reflexivity].
    + pose proof H as [Hs Hc Hqueue]. rewrite Hq in Hqueue.
      cbn [forallb] in Hqueue. apply andb_true_iff in Hqueue.
      destruct Hqueue as (Hh & Hrest).
      apply perform_persistent; [exact Hh|]. constructor; assumption.
Qed.

Lemma steps_persistent (schedule : list Stimulus) (k : nat) (w : World) :
  persistent_state l e k w ->
  exists k',
    persistent_state l e k' (steps w schedule)
    /\ k + emissions e (event l) schedule <= k'
    /\ (heard l e client ListenerError = 0 ->
        k' = k + emissions e (event l) schedule).
Proof.
  revert k w. unfold steps, emissions.
  induction schedule as [|s schedule IH]; intros k w H;
    cbn [fold_left List.filter].
  - exists k. cbn [List.length]. split; [exact H|]. split; [lia|]. intros _. lia.
  - destruct (step_persistent k s w H) as (k1 & H1 & Hle1 & Heq1).
    destruct (IH k1 (step w s) H1) as (k2 & H2 & Hle2 & Heq2).
    exists k2. split; [exact H2|].
    destruct (is_emits e (event l) s); cbn [List.length]; split;
      try lia; intros Hq; specialize (Heq1 Hq); specialize (Heq2 Hq); lia.
Qed.

Lemma load_persistent (w : World) :
  emitter l = Some e -> event l <> "" ->
  unaware_of n w ->
  persistent_state l e 0 (load l w).
Proof.
  intros He Hev (Hs & Hq & Hc & Ho).
  assert (HonLoad : onLoad l = [EmitterOn e (event l) l]).
  { unfold onLoad, listener, truthy. rewrite He, l_persistent.
    destruct (String.eqb_spec (event l) "") as [E|_]; [contradiction|].
    reflexivity. }
  unfold load. rewrite HonLoad. cbn [fold_left emitter_call].
  constructor; cbn [subscribe record subscriptions pieces microtasks history];
    fold n.
  - rewrite List.filter_app, Hs. cbn [List.filter app].
    unfold named at 1. cbn [sub_piece]. fold n. rewrite String.eqb_refl.
    unfold subscription_of. rewrite l_persistent. reflexivity.
  - rewrite ListenerProperties.calls_of_app, Hc. reflexivity.
  - exact Hq.
Qed.

End Persistent.

(** X16. A persistent listener fires every time: once loaded into a world
    that has not met it, through any sequence of emissions and queued
    effects, it stays subscribed and its [run] is called at least once per
    emission of its event on its emitter, and exactly once per emission
    unless it listens to the client's listener-error event (which the
    wrappers of failing listeners emit as well). *)
Theorem persistent_listener_fires_every_time (l : Listener) (e : EventEmitter)
    (w0 : World) (schedule : list Stimulus) :
  once l = false -> emitter l = Some e -> event l <> "" ->
  unaware_of (name l) w0 ->
  let w := steps (load l w0) schedule in
  List.filter (named (name l)) (subscriptions w) = [subscription_of l e] /\
  PersistentListener.emissions e (event l) schedule <= calls_of (name l) (history w) /\
  (listens client ListenerError (subscription_of l e) = false ->
   calls_of (name l) (history w)
   = PersistentListener.emissions e (event l) schedule).
Proof.
  intros Hp He Hev Hw0 w.
  pose proof (load_persistent l e Hp w0 He Hev Hw0) as H0.
  destruct (steps_persistent l e Hp schedule 0 (load l w0) H0)
    as (k & [Hs Hc Hq] & Hle & Heq).
  fold w in Hs, Hc. split; [exact Hs|]. rewrite Hc. split; [lia|].
  intros Hl. apply Heq. unfold PersistentListener.heard. rewrite Hl. reflexivity.
Qed.

Lemma persistent_listener_fires_every_time_witness :
  let l := Scenario.failingListener in
  let schedule :=
    [Emits client "ready" []; Tick; Emits client "ready" []; Emits client "message" [];
     Tick; Emits client "ready" []] in
  let w := steps (load l empty_world) schedule in
  once l = false /\ emitter l = Some client /\ event l <> "" /\
  unaware_of (name l) empty_world /\
  listens client ListenerError (subscription_of l client) = false /\
  calls_of (name l) (history w) = 3.
Proof.
  cbv zeta.
  assert (Hev : event Scenario.failingListener <> "") by discriminate.
  assert (Hw0 : unaware_of (name Scenario.failingListener) empty_world)
    by (repeat split; reflexivity).
  split; [reflexivity|]. split; [reflexivity|]. split; [exact Hev|].
  split; [exact Hw0|]. split; [reflexivity|].
  destruct (persistent_listener_fires_every_time Scenario.failingListener client
              empty_world
              [Emits client "ready" []; Tick; Emits client "ready" [];
               Emits client "message" []; Tick; Emits client "ready" []]
              eq_refl eq_refl Hev Hw0) as (_ & _ & H).
  exact (H eq_refl).
Defined.

End LifecycleFacts.
